(** * ObfuscateZero: a shallow embedding of the basic-block pass

    The pass of [ObfuscateZero.cpp] walks one basic block and replaces
    eligible zero constants used as operands by the value of

      [zext (431 * ((x & 7) | any1)^2 == 277 * ((y & 7) | any2)^2)]

    where [x] and [y] are integer values defined earlier in the block.

    The LLVM objects the pass touches are modelled as follows.
    - A [Value*] is a typed reference, as in the textual IR ([i32 %3]):
      a constant, or the identity of an instruction result, an argument
      or a block label.
    - A basic block is the list of its instructions.  While the block is
      walked it is split at the iterator: [Before] holds what precedes
      the visited instruction (this is also where [IRBuilder<>(&Inst)]
      inserts), the rest is still to be visited.
    - [std::vector::at] may throw; results live in [Outcome].
    - [std::default_random_engine] is seen through the samples the two
      distributions take from it: a tape that determines each sample,
      with a cursor, so that statements quantify over every sequence of
      samples.  How many values of the engine the library consumes for
      one sample, and how it scales them, is left to the library and is
      not modelled; only the range of a sample is used.
    - The identity of a value the builder creates is taken from a
      counter, [NextId]. *)

From Stdlib Require Import List ZArith Lia Bool Arith PeanoNat.
Import ListNotations.

Set Implicit Arguments.

(** ** Types, constants and values *)

Inductive Ty : Type :=
| IntegerTy (bits : N)
| PointerTy
| FloatingPointTy
| VoidTy
| OtherTy.          (* vectors, arrays, structs, labels, tokens *)

Definition Ty_eqb (a b : Ty) : bool :=
  match a, b with
  | IntegerTy n, IntegerTy m => N.eqb n m
  | PointerTy, PointerTy => true
  | FloatingPointTy, FloatingPointTy => true
  | VoidTy, VoidTy => true
  | OtherTy, OtherTy => true
  | _, _ => false
  end.

Definition isIntegerTy (T : Ty) : bool :=
  match T with IntegerTy _ => true | _ => false end.

Definition isFloatingPointTy (T : Ty) : bool :=
  match T with FloatingPointTy => true | _ => false end.

Definition isa_PointerType (T : Ty) : bool :=
  match T with PointerTy => true | _ => false end.

(** Only integer widths are tracked; the builder below queries the width
    of pool values and of the intermediary type, all of them integers. *)
Definition getScalarSizeInBits (T : Ty) : N :=
  match T with IntegerTy n => n | _ => 0%N end.

Inductive Constant : Type :=
| ConstantInt (bits : N) (val : Z)
| ConstantFP (pattern : Z)            (* the bit pattern of the float *)
| ConstantPointerNull
| ConstantAggregateZero               (* zeroinitializer *)
| GlobalAddress (id : nat)
| UndefValue (T : Ty).

Definition two_to (bits : N) : Z := 2 ^ Z.of_N bits.

Definition Constant_getType (C : Constant) : Ty :=
  match C with
  | ConstantInt bits _ => IntegerTy bits
  | ConstantFP _ => FloatingPointTy
  | ConstantPointerNull => PointerTy
  | ConstantAggregateZero => OtherTy
  | GlobalAddress _ => PointerTy
  | UndefValue T => T
  end.

(** [Constant::isNullValue]: the all-zero-bits value of the type. *)
Definition isNullValue (C : Constant) : bool :=
  match C with
  | ConstantInt bits val => (val mod two_to bits =? 0)%Z
  | ConstantFP pattern => (pattern =? 0)%Z
  | ConstantPointerNull => true
  | ConstantAggregateZero => true
  | GlobalAddress _ => false
  | UndefValue _ => false
  end.

Inductive Value : Type :=
| VConstant (C : Constant)
| VInstruction (id : nat) (T : Ty)
| VArgument (id : nat) (T : Ty)
| VBasicBlock (id : nat).

Definition getType (V : Value) : Ty :=
  match V with
  | VConstant C => Constant_getType C
  | VInstruction _ T => T
  | VArgument _ T => T
  | VBasicBlock _ => OtherTy
  end.

Definition dyn_cast_Constant (V : Value) : option Constant :=
  match V with VConstant C => Some C | _ => None end.

(** ** Instructions and blocks *)

Inductive Opcode : Type :=
| GetElementPtr | Switch | Call | Invoke
| PHI | LandingPad
| Trunc | ZExt | And | Or | Mul | ICmpEQ
| Add | Sub | Load | Store | Select | Br | Ret.

Record Instruction : Type := mkInstruction {
  inst_id : nat;
  opcode : Opcode;
  inst_ty : Ty;
  operands : list Value
}.

Definition BasicBlock : Type := list Instruction.

Definition valueOf (I : Instruction) : Value :=
  VInstruction (inst_id I) (inst_ty I).

Definition getNumOperands (I : Instruction) : nat := length (operands I).

Definition getOperand (I : Instruction) (i : nat) : option Value :=
  nth_error (operands I) i.

Fixpoint list_set {A} (l : list A) (i : nat) (x : A) : list A :=
  match l, i with
  | [], _ => []
  | _ :: l', O => x :: l'
  | y :: l', S i' => y :: list_set l' i' x
  end.

Definition setOperand (I : Instruction) (i : nat) (V : Value) : Instruction :=
  {| inst_id := inst_id I; opcode := opcode I; inst_ty := inst_ty I;
     operands := list_set (operands I) i V |}.

Definition isa_PHINode (I : Instruction) : bool :=
  match opcode I with PHI => true | _ => false end.

Definition isEHPad (I : Instruction) : bool :=
  match opcode I with LandingPad => true | _ => false end.

(** [BasicBlock::getFirstNonPHI], as the split of the block around it. *)
Fixpoint getFirstNonPHI (BB : BasicBlock) : BasicBlock * BasicBlock :=
  match BB with
  | [] => ([], [])
  | P :: BB' =>
      if isa_PHINode P
      then let (phis, rest) := getFirstNonPHI BB' in (P :: phis, rest)
      else ([], BB)
  end.

(** [BasicBlock::getFirstInsertionPt]: the first non-phi instruction,
    stepping over it when it is an exception-handling pad. *)
Definition getFirstInsertionPt (BB : BasicBlock) : BasicBlock * BasicBlock :=
  let (phis, rest) := getFirstNonPHI BB in
  match rest with
  | [] => (phis, [])
  | P :: rest' => if isEHPad P then (phis ++ [P], rest') else (phis, rest)
  end.

(** ** Eligibility filter *)

Definition isValidCandidateInstruction (Inst : Instruction) : bool :=
  match opcode Inst with
  | GetElementPtr => false
  | Switch => false
  | Call => false
  | _ => true
  end.

Definition isValidCandidateOperand (V : Value) : option Constant :=
  match dyn_cast_Constant V with
  | Some C =>
      if isa_PointerType (Constant_getType C) then None
      else if isFloatingPointTy (Constant_getType C) then None
      else if isNullValue C then Some C
      else None
  | None => None
  end.

(** ** Pass state, generator and the outcome monad *)

Record default_random_engine : Type := mkEngine {
  entropy : nat -> nat;         (* what the samples to come are made of *)
  cursor : nat                  (* how many samples were taken *)
}.

(** [std::uniform_int_distribution<size_t>(a, b)] applied to the engine:
    a value of [a .. b], and the engine advanced by one sample.  Every
    sequence of samples within their ranges is the one of some tape;
    the number of engine values behind a sample is not represented. *)
Definition uniform_int_distribution (a b : nat) (G : default_random_engine)
  : nat * default_random_engine :=
  (a + entropy G (cursor G) mod (b - a + 1),
   {| entropy := entropy G; cursor := S (cursor G) |}).

Record State : Type := mkState {
  IntegerVect : list Value;           (* the member vector of the pass *)
  Generator : default_random_engine;  (* the member engine of the pass *)
  NextId : nat;                       (* identity of the next value created *)
  Before : list Instruction           (* the block up to the iterator *)
}.

Inductive Outcome (A : Type) : Type :=
| Returns (a : A)
| Throws_out_of_range.

Arguments Returns {A} a.
Arguments Throws_out_of_range {A}.

Definition M (A : Type) : Type := State -> Outcome (A * State).

Definition ret {A} (a : A) : M A := fun st => Returns (a, st).

Definition bind {A B} (c : M A) (k : A -> M B) : M B :=
  fun st =>
    match c st with
    | Returns (a, st') => k a st'
    | Throws_out_of_range => Throws_out_of_range
    end.

Notation "x <- c ;; k" := (bind c (fun x => k))
  (at level 61, c at next level, right associativity).
Notation "c ;;; k" := (bind c (fun _ => k))
  (at level 61, right associativity).

Definition IntegerVect_size : M nat :=
  fun st => Returns (length (IntegerVect st), st).

(** [IntegerVect.at(n)] *)
Definition IntegerVect_at (n : nat) : M Value :=
  fun st =>
    match nth_error (IntegerVect st) n with
    | Some V => Returns (V, st)
    | None => Throws_out_of_range
    end.

(** Drawing from a distribution with the member engine. *)
Definition draw (a b : nat) : M nat :=
  fun st =>
    let (n, G) := uniform_int_distribution a b (Generator st) in
    Returns (n, {| IntegerVect := IntegerVect st; Generator := G;
                   NextId := NextId st; Before := Before st |}).

Definition registerInteger (V : Value) : M unit :=
  fun st =>
    if isIntegerTy (getType V)
    then Returns (tt, {| IntegerVect := IntegerVect st ++ [V];
                         Generator := Generator st;
                         NextId := NextId st; Before := Before st |})
    else Returns (tt, st).

(** ** The IRBuilder anchored before the visited instruction

    Every operand the pass hands to the builder on the left is an
    instruction result, so the constant folder never applies; the two
    casts return their argument when no conversion is needed.  A cast is
    created as asked: that it is a valid one is an assertion of LLVM,
    which builds without assertions do not make. *)

Definition Insert (op : Opcode) (T : Ty) (ops : list Value) : M Value :=
  fun st =>
    let I := {| inst_id := NextId st; opcode := op; inst_ty := T;
                operands := ops |} in
    Returns (valueOf I,
             {| IntegerVect := IntegerVect st; Generator := Generator st;
                NextId := S (NextId st); Before := Before st ++ [I] |}).

Definition CreateZExt (V : Value) (DestTy : Ty) : M Value :=
  if Ty_eqb (getType V) DestTy then ret V else Insert ZExt DestTy [V].

Definition CreateTrunc (V : Value) (DestTy : Ty) : M Value :=
  if Ty_eqb (getType V) DestTy then ret V else Insert Trunc DestTy [V].

Definition CreateZExtOrTrunc (V : Value) (DestTy : Ty) : M Value :=
  let VTy := getType V in
  if (getScalarSizeInBits VTy <? getScalarSizeInBits DestTy)%N
  then CreateZExt V DestTy
  else if (getScalarSizeInBits DestTy <? getScalarSizeInBits VTy)%N
  then CreateTrunc V DestTy
  else ret V.

Definition CreateAnd (L R : Value) : M Value := Insert And (getType L) [L; R].
Definition CreateOr (L R : Value) : M Value := Insert Or (getType L) [L; R].
Definition CreateMul (L R : Value) : M Value := Insert Mul (getType L) [L; R].
Definition CreateICmpEQ (L R : Value) : M Value :=
  Insert ICmpEQ (IntegerTy 1) [L; R].

(** ** replaceZero *)

Definition p1 : Z := 431.
Definition p2 : Z := 277.

Definition replaceZero (Inst : Instruction) (VReplace : Constant)
  : M (option Value) :=
  let ReplacedType := Constant_getType VReplace in
  let IntermediaryType := IntegerTy 32 in
  size <- IntegerVect_size ;;
  if size <? 1 then ret None else
  let Rand := draw 0 (size - 1) in
  let RandAny := draw 1 10 in
  Index1 <- Rand ;;
  Index2 <- Rand ;;
  r1 <- RandAny ;;
  r2 <- RandAny ;;
  let any1 := VConstant (ConstantInt 32 (Z.of_nat (1 + r1))) in
  let any2 := VConstant (ConstantInt 32 (Z.of_nat (1 + r2))) in
  let prime1 := VConstant (ConstantInt 32 p1) in
  let prime2 := VConstant (ConstantInt 32 p2) in
  let OverflowMaskLHS := VConstant (ConstantInt 32 7) in
  let OverflowMaskRHS := VConstant (ConstantInt 32 7) in
  (* lhs *)
  x <- IntegerVect_at Index1 ;;
  LhsCast <- CreateZExtOrTrunc x IntermediaryType ;;
  registerInteger LhsCast ;;;
  LhsAnd <- CreateAnd LhsCast OverflowMaskLHS ;;
  registerInteger LhsAnd ;;;
  LhsOr <- CreateOr LhsAnd any1 ;;
  registerInteger LhsOr ;;;
  LhsSquare <- CreateMul LhsOr LhsOr ;;
  registerInteger LhsSquare ;;;
  LhsTot <- CreateMul LhsSquare prime1 ;;
  registerInteger LhsTot ;;;
  (* rhs *)
  y <- IntegerVect_at Index2 ;;
  RhsCast <- CreateZExtOrTrunc y IntermediaryType ;;
  registerInteger RhsCast ;;;
  RhsAnd <- CreateAnd RhsCast OverflowMaskRHS ;;
  registerInteger RhsAnd ;;;
  RhsOr <- CreateOr RhsAnd any2 ;;
  registerInteger RhsOr ;;;
  RhsSquare <- CreateMul RhsOr RhsOr ;;
  registerInteger RhsSquare ;;;
  RhsTot <- CreateMul RhsSquare prime2 ;;
  registerInteger RhsTot ;;;
  (* comp *)
  comp <- CreateICmpEQ LhsTot RhsTot ;;
  registerInteger comp ;;;
  castComp <- CreateZExt comp ReplacedType ;;
  registerInteger castComp ;;;
  ret (Some castComp).

(** ** The block driver *)

(** A [for] loop over a range: the body is run on each element in turn,
    threading the loop-carried state; an exception leaves the loop. *)
Fixpoint for_each {A S} (body : A -> S -> Outcome S) (l : list A) (s : S)
  : Outcome S :=
  match l with
  | [] => Returns s
  | a :: l' =>
      match body a s with
      | Returns s' => for_each body l' s'
      | Throws_out_of_range => Throws_out_of_range
      end
  end.

(** One turn of the loop over the operand indices of [Inst].  The visited
    instruction and the flag [modified] are carried along with the state. *)
Definition operandBody (i : nat) (s : Instruction * bool * State)
  : Outcome (Instruction * bool * State) :=
  let '(Inst, modified, st) := s in
  match getOperand Inst i with
  | None => Returns s               (* not taken: i < getNumOperands *)
  | Some V =>
      match isValidCandidateOperand V with
      | Some C =>
          match replaceZero Inst C st with
          | Returns (Some New_val, st') =>
              Returns (setOperand Inst i New_val, true, st')
          | Returns (None, st') => Returns (Inst, modified, st')
          | Throws_out_of_range => Throws_out_of_range
          end
      | None => Returns s
      end
  end.

(** Moving the iterator past the visited instruction. *)
Definition advance (Inst : Instruction) (st : State) : State :=
  {| IntegerVect := IntegerVect st; Generator := Generator st;
     NextId := NextId st; Before := Before st ++ [Inst] |}.

(** One turn of the loop over the instructions of the block. *)
Definition instBody (Inst : Instruction) (s : bool * State)
  : Outcome (bool * State) :=
  let '(modified, st) := s in
  match
    (if isValidCandidateInstruction Inst
     then for_each operandBody (seq 0 (getNumOperands Inst))
                   (Inst, modified, st)
     else Returns (Inst, modified, st))
  with
  | Returns (Inst', modified', st') =>
      match registerInteger (valueOf Inst') st' with
      | Returns (_, st'') => Returns (modified', advance Inst' st'')
      | Throws_out_of_range => Throws_out_of_range
      end
  | Throws_out_of_range => Throws_out_of_range
  end.

(** The state in which the walk starts: the vector cleared, the iterator
    at the first insertion point. *)
Definition enter (BB : BasicBlock) (st : State) : State :=
  {| IntegerVect := []; Generator := Generator st; NextId := NextId st;
     Before := fst (getFirstInsertionPt BB) |}.

(** [runOnBasicBlock]: the flag, and the state in which [Before] is the
    whole transformed block. *)
Definition runOnBasicBlock (BB : BasicBlock) (st : State)
  : Outcome (bool * State) :=
  for_each instBody (snd (getFirstInsertionPt BB)) (false, enter BB st).

(** ** Runtime meaning of the instructions the pass inserts

    Integer values are unsigned: a value of [iN] is its residue modulo
    [2^N].  An environment gives every instruction result and argument
    its runtime value. *)

Definition Env : Type := nat -> Z.

Definition update (rho : Env) (id : nat) (v : Z) : Env :=
  fun j => if Nat.eqb j id then v else rho j.

Definition evalValue (rho : Env) (V : Value) : Z :=
  match V with
  | VConstant (ConstantInt bits val) => (val mod two_to bits)%Z
  | VConstant _ => 0%Z
  | VInstruction id _ => rho id
  | VArgument id _ => rho id
  | VBasicBlock _ => 0%Z
  end.

Definition evalInstruction (rho : Env) (Ins : Instruction) : option Z :=
  match opcode Ins, operands Ins with
  | ZExt, [a] =>
      Some (evalValue rho a mod two_to (getScalarSizeInBits (getType a)))%Z
  | Trunc, [a] =>
      Some (evalValue rho a mod two_to (getScalarSizeInBits (inst_ty Ins)))%Z
  | And, [a; b] => Some (Z.land (evalValue rho a) (evalValue rho b))
  | Or, [a; b] => Some (Z.lor (evalValue rho a) (evalValue rho b))
  | Mul, [a; b] =>
      Some ((evalValue rho a * evalValue rho b)
              mod two_to (getScalarSizeInBits (inst_ty Ins)))%Z
  | ICmpEQ, [a; b] =>
      Some (if (evalValue rho a =? evalValue rho b)%Z then 1 else 0)%Z
  | _, _ => None
  end.

Fixpoint execInstructions (rho : Env) (l : list Instruction) : option Env :=
  match l with
  | [] => Some rho
  | Ins :: l' =>
      match evalInstruction rho Ins with
      | Some v => execInstructions (update rho (inst_id Ins) v) l'
      | None => None
      end
  end.

(** The two sides of the comparison, as functions of the 32-bit
    ingredient and of the constant or-ed into it. *)
Definition side (prime any x : Z) : Z :=
  let masked := Z.lor (Z.land x (7 mod two_to 32)) (any mod two_to 32)%Z in
  let square := ((masked * masked) mod two_to 32)%Z in
  ((square * (prime mod two_to 32)) mod two_to 32)%Z.

(** ** A block to run the pass on

<<
  entry:
    %0 = phi i32 [ %8, %9 ]
    %1 = add i32 %0, 0
    %2 = getelementptr i32, ptr %7, i32 0
    %3 = sub i32 %1, 0
    store i32 0, ptr %2
    store <4 x i32> zeroinitializer, ptr %2
    ret i32 %3
>> *)
Definition example_phi : Instruction :=
  {| inst_id := 0; opcode := PHI; inst_ty := IntegerTy 32;
     operands := [VArgument 8 (IntegerTy 32); VBasicBlock 9] |}.
Definition example_add : Instruction :=
  {| inst_id := 1; opcode := Add; inst_ty := IntegerTy 32;
     operands := [VInstruction 0 (IntegerTy 32);
                  VConstant (ConstantInt 32 0)] |}.
Definition example_gep : Instruction :=
  {| inst_id := 2; opcode := GetElementPtr; inst_ty := PointerTy;
     operands := [VArgument 7 PointerTy; VConstant (ConstantInt 32 0)] |}.
Definition example_sub : Instruction :=
  {| inst_id := 3; opcode := Sub; inst_ty := IntegerTy 32;
     operands := [VInstruction 1 (IntegerTy 32);
                  VConstant (ConstantInt 32 0)] |}.
Definition example_store : Instruction :=
  {| inst_id := 4; opcode := Store; inst_ty := VoidTy;
     operands := [VConstant (ConstantInt 32 0);
                  VInstruction 2 PointerTy] |}.
Definition example_vstore : Instruction :=
  {| inst_id := 5; opcode := Store; inst_ty := VoidTy;
     operands := [VConstant ConstantAggregateZero;
                  VInstruction 2 PointerTy] |}.
Definition example_ret : Instruction :=
  {| inst_id := 6; opcode := Ret; inst_ty := VoidTy;
     operands := [VInstruction 3 (IntegerTy 32)] |}.

Definition example_block : BasicBlock :=
  [example_phi; example_add; example_gep; example_sub; example_store;
   example_vstore; example_ret].

Definition example_state : State :=
  {| IntegerVect := [];
     Generator := {| entropy := fun n => 3 * n + 1; cursor := 0 |};
     NextId := 10;
     Before := [] |}.

(** A state in the middle of a walk: [%1] is in the vector. *)
Definition example_state_1 : State :=
  {| IntegerVect := [VInstruction 1 (IntegerTy 32)];
     Generator := {| entropy := fun n => 3 * n + 1; cursor := 0 |};
     NextId := 10;
     Before := [example_phi; example_add; example_gep] |}.

(** ** Notions used to state what the pass does *)

(** The values of the integer-typed instructions of a list: what
    [registerInteger] keeps of them. *)
Definition integerValues (l : list Instruction) : list Value :=
  map valueOf (filter (fun Ins => isIntegerTy (inst_ty Ins)) l).

(** The four instructions of one side of the comparison, reading the
    cast ingredient [c], and the environment they leave. *)
Definition sideEnv (rho : Env) (n : nat) (X any prime : Z) : Env :=
  let masked := Z.lor (Z.land X (7 mod two_to 32)) (any mod two_to 32) in
  update
    (update
       (update (update rho n (Z.land X (7 mod two_to 32))) (S n) masked)
       (S (S n)) ((masked * masked) mod two_to 32)%Z)
    (S (S (S n))) (side prime any X).

(** [Grows st st' news]: the block before the iterator gained the
    instructions [news], and the vector gained exactly the values of
    the integer-typed ones among them (possibly more than once). *)
Definition Grows (st st' : State) (news : list Instruction) : Prop :=
  Before st' = Before st ++ news
  /\ (exists added, IntegerVect st' = IntegerVect st ++ added)
  /\ (forall v, In v (IntegerVect st') <->
                In v (IntegerVect st) \/ In v (integerValues news))
  /\ NextId st <= NextId st'.

(** [SameShape X X']: identity, kind, result type and operand count. *)
Definition SameShape (X X' : Instruction) : Prop :=
  inst_id X' = inst_id X /\ opcode X' = opcode X /\ inst_ty X' = inst_ty X
  /\ getNumOperands X' = getNumOperands X.

(** The instructions [news] can be run from every environment. *)
Definition Runs (news : list Instruction) : Prop :=
  forall rho, exists rho', execInstructions rho news = Some rho'.

(** Once [news] has run, [v] evaluates to zero. *)
Definition Zeroed (news : list Instruction) (v : Value) : Prop :=
  forall rho rho',
    execInstructions rho news = Some rho' -> evalValue rho' v = 0%Z.

(** Operand [i] of [X] was an eligible zero and is now a value created
    among [news], of the type of that zero, which evaluates to zero. *)
Definition Replaced (X X' : Instruction) (news : list Instruction) (i : nat)
  : Prop :=
  exists C v,
    getOperand X i = Some (VConstant C)
    /\ isValidCandidateOperand (VConstant C) = Some C
    /\ getOperand X' i = Some v
    /\ getType v = Constant_getType C
    /\ In v (map valueOf news)
    /\ Zeroed news v.

Definition OperandsRel (X X' : Instruction) (news : list Instruction) : Prop :=
  forall i, getOperand X' i = getOperand X i \/ Replaced X X' news i.

(** The state of the operand loop of [X] relative to its start. *)
Definition InnerRel (X : Instruction) (m : bool) (st : State)
           (s : Instruction * bool * State) : Prop :=
  let '(X', m', st') := s in
  exists news,
    Grows st st' news
    /\ (forall Ins, In Ins news -> NextId st <= inst_id Ins < NextId st')
    /\ SameShape X X'
    /\ OperandsRel X X' news
    /\ ((X' = X /\ m' = m /\ st' = st /\ news = [])
        \/ (m' = true /\ exists i, Replaced X X' news i))
    /\ Runs news.

(** What visiting [X] from [(m, st)] leaves: the instructions [news]
    inserted before it and the instruction [X'] it has become. *)
Definition InstRel (X : Instruction) (m : bool) (st : State)
           (m' : bool) (st' : State)
           (news : list Instruction) (X' : Instruction) : Prop :=
  Grows st st' (news ++ [X'])
  /\ (forall Ins, In Ins news -> NextId st <= inst_id Ins < NextId st')
  /\ SameShape X X'
  /\ OperandsRel X X' news
  /\ ((X' = X /\ m' = m /\ news = [])
      \/ (m' = true /\ exists i, Replaced X X' news i))
  /\ (isValidCandidateInstruction X = false -> X' = X /\ news = [])
  /\ Runs news.

(** The instructions a walk places in the block, in order. *)
Definition assemble (outs : list (list Instruction * Instruction))
  : list Instruction :=
  flat_map (fun o => fst o ++ [snd o]) outs.

Definition Kept (X : Instruction) (o : list Instruction * Instruction) : Prop :=
  SameShape X (snd o)
  /\ OperandsRel X (snd o) (fst o)
  /\ (isValidCandidateInstruction X = false -> snd o = X /\ fst o = [])
  /\ Runs (fst o).

Definition Overwritten (p : Instruction * (list Instruction * Instruction))
  : Prop :=
  operands (snd (snd p)) <> operands (fst p).

Definition WalkRel (l : list Instruction) (m : bool) (st : State)
           (m' : bool) (st' : State)
           (outs : list (list Instruction * Instruction)) : Prop :=
  Grows st st' (assemble outs)
  /\ Forall2 Kept l outs
  /\ (forall Ins, In Ins (assemble outs) ->
        In (inst_id Ins) (map inst_id l)
        \/ NextId st <= inst_id Ins < NextId st')
  /\ (m' = true <-> m = true \/ Exists Overwritten (combine l outs)).

(** ** Notions for the shape of what the pass inserts *)

(** The six kinds of instruction the builder calls of [replaceZero]
    create. *)
Definition isArithmetic (Ins : Instruction) : bool :=
  match opcode Ins with
  | Trunc | ZExt | And | Or | Mul | ICmpEQ => true
  | _ => false
  end.

(** [Ins] is one of these and each of its operands is a constant that is
    not an eligible zero, or one of the values [avail]. *)
Definition Fed (avail : list Value) (Ins : Instruction) : Prop :=
  isArithmetic Ins = true
  /\ forall V, In V (operands Ins) ->
       (exists C, V = VConstant C /\ isValidCandidateOperand V = None)
       \/ In V avail.

(** Each instruction of [l] is fed by [avail] and the results of the
    instructions of [l] before it. *)
Fixpoint WellFed (avail : list Value) (l : list Instruction) : Prop :=
  match l with
  | [] => True
  | Ins :: l' => Fed avail Ins /\ WellFed (avail ++ [valueOf Ins]) l'
  end.

(** No operand of [X] is an eligible zero. *)
Definition Settled (X : Instruction) : Prop :=
  forall V, In V (operands X) -> isValidCandidateOperand V = None.

(** From the first integer-typed instruction on ([seen] tells whether it
    is behind), the eligible instructions of [l] are settled. *)
Fixpoint SettledAfter (seen : bool) (l : list Instruction) : Prop :=
  match l with
  | [] => True
  | Ins :: l' =>
      (seen = true -> isValidCandidateInstruction Ins = true -> Settled Ins)
      /\ SettledAfter (seen || isIntegerTy (inst_ty Ins)) l'
  end.

(** The instructions of [l] created by the pass (those whose identity is
    not below [N0]) are fed by [seen] and the results before them. *)
Fixpoint InsertedFed (N0 : nat) (seen : list Value) (l : list Instruction)
  : Prop :=
  match l with
  | [] => True
  | Ins :: l' =>
      (N0 <= inst_id Ins -> Fed seen Ins)
      /\ InsertedFed N0 (seen ++ [valueOf Ins]) l'
  end.

(** The state of the operand loop of [X] relative to its start, after
    [k] replacements. *)
Definition InnerShape (X : Instruction) (m : bool) (st : State)
           (s : Instruction * bool * State) : Prop :=
  let '(X', m', st') := s in
  exists news k,
    Before st' = Before st ++ news
    /\ WellFed (IntegerVect st) news
    /\ incl (IntegerVect st') (IntegerVect st ++ map valueOf news)
    /\ 9 * k <= length news <= 12 * k
    /\ NextId st' = NextId st + length news
    /\ length (IntegerVect st) + 11 * k <= length (IntegerVect st')
       <= length (IntegerVect st) + 12 * k
    /\ (m' = true <-> m = true \/ 0 < k)
    /\ (k = 0 -> X' = X /\ st' = st)
    /\ SameShape X X'.

(** The state after a visit of [X] that replaced nothing. *)
Definition visitKept (X : Instruction) (st : State) : State :=
  {| IntegerVect := if isIntegerTy (inst_ty X)
                    then IntegerVect st ++ [valueOf X]
                    else IntegerVect st;
     Generator := Generator st;
     NextId := NextId st;
     Before := Before st ++ [X] |}.

Definition isIntegerInst (Ins : Instruction) : bool :=
  isIntegerTy (inst_ty Ins).

(** The walk so far, seen from the block it has built: [placed] follows
    [prefix], holds the definitions of the vector, holds an
    integer-typed instruction only if the vector is not empty, and is
    settled from its first integer-typed instruction on. *)
Definition WalkSettled (prefix : list Instruction) (st : State) : Prop :=
  exists placed,
    Before st = prefix ++ placed
    /\ (forall v, In v (IntegerVect st) -> In v (map valueOf placed))
    /\ (existsb isIntegerInst placed = true -> IntegerVect st <> [])
    /\ SettledAfter false placed.

(** The vector is defined in the block built so far, whose created
    instructions are fed by what precedes them. *)
Definition WalkFed (N0 : nat) (st : State) : Prop :=
  (forall v, In v (IntegerVect st) -> In v (map valueOf (Before st)))
  /\ InsertedFed N0 [] (Before st).

(** The operands [isValidCandidateOperand] accepts, counted. *)
Definition isCandidate (V : Value) : bool :=
  match isValidCandidateOperand V with Some _ => true | None => false end.

Definition candidates (X : Instruction) : nat :=
  length (filter isCandidate (operands X)).

(** The operands a walk of [l] replaces: the eligible zeros of the
    eligible instructions that follow an integer-typed instruction
    ([seen]: one was met already). *)
Fixpoint replacements (seen : bool) (l : list Instruction) : nat :=
  match l with
  | [] => 0
  | X :: l' =>
      (if seen && isValidCandidateInstruction X then candidates X else 0)
      + replacements (seen || isIntegerInst X) l'
  end.

(** The typing rules of LLVM for the kinds of instruction [replaceZero]
    creates: a binary operator has the integer type of its two operands,
    a comparison of two integers of one type is an [i1], [zext] widens
    and [trunc] narrows an integer. *)
Definition wellTyped (Ins : Instruction) : bool :=
  match opcode Ins, operands Ins with
  | (And | Or | Mul), [L; R] =>
      isIntegerTy (inst_ty Ins)
      && Ty_eqb (getType L) (inst_ty Ins) && Ty_eqb (getType R) (inst_ty Ins)
  | ICmpEQ, [L; R] =>
      Ty_eqb (inst_ty Ins) (IntegerTy 1)
      && isIntegerTy (getType L) && Ty_eqb (getType R) (getType L)
  | ZExt, [V] =>
      isIntegerTy (getType V) && isIntegerTy (inst_ty Ins)
      && (getScalarSizeInBits (getType V)
          <? getScalarSizeInBits (inst_ty Ins))%N
  | Trunc, [V] =>
      isIntegerTy (getType V) && isIntegerTy (inst_ty Ins)
      && (getScalarSizeInBits (inst_ty Ins)
          <? getScalarSizeInBits (getType V))%N
  | _, _ => false
  end.

(** Every eligible zero among the operands of [X] is an integer. *)
Definition IntegerZeros (X : Instruction) : Prop :=
  forall V C,
    In V (operands X) -> isValidCandidateOperand V = Some C ->
    exists n, Constant_getType C = IntegerTy n /\ (1 <= n)%N.

(** The vector holds integers, and the instructions created so far
    (those whose identity is not below [N0]) are well typed. *)
Definition WalkTyped (N0 : nat) (st : State) : Prop :=
  (forall v, In v (IntegerVect st) -> isIntegerTy (getType v) = true)
  /\ (forall Ins, In Ins (Before st) -> N0 <= inst_id Ins ->
                  wellTyped Ins = true).

(** * Properties *)

(** ** Arithmetic of the comparison *)

Section Arithmetic.
Local Open Scope Z_scope.

Lemma land_7_range (x : Z) : 0 <= Z.land x 7 < 8.
Proof.
  change 7 with (Z.ones 3).
  rewrite Z.land_ones by lia.
  apply Z.mod_pos_bound. reflexivity.
Qed.

Lemma lor_small_range (v a : Z) :
  0 <= v < 8 -> 2 <= a <= 11 -> 2 <= Z.lor v a <= 15.
Proof.
  intros Hv Ha.
  assert (Ev : v = 0 \/ v = 1 \/ v = 2 \/ v = 3 \/ v = 4 \/ v = 5 \/
               v = 6 \/ v = 7) by lia.
  assert (Ea : a = 2 \/ a = 3 \/ a = 4 \/ a = 5 \/ a = 6 \/ a = 7 \/
               a = 8 \/ a = 9 \/ a = 10 \/ a = 11) by lia.
  clear Hv Ha.
  repeat (destruct Ev as [Ev | Ev]; [ | ]); subst v;
    repeat (destruct Ea as [Ea | Ea]; [ | ]); subst a;
    vm_compute; split; discriminate.
Qed.

Lemma scaled_squares_differ (m n : Z) :
  2 <= m <= 15 -> 2 <= n <= 15 -> 431 * (m * m) <> 277 * (n * n).
Proof.
  intros Hm Hn E.
  assert (D : (277 | m * m)).
  { apply Z.gauss with 431.
    - exists (n * n). lia.
    - reflexivity. }
  destruct D as [k Hk].
  assert (4 <= m * m <= 225) by nia.
  assert (k = 0) by nia.
  nia.
Qed.

Lemma side_value (prime any x : Z) :
  0 <= prime < 4096 -> 2 <= any <= 11 ->
  let m := Z.lor (Z.land x 7) any in
  2 <= m <= 15 /\ side prime any x = prime * (m * m).
Proof.
  intros Hp Ha. unfold side.
  assert (T : two_to 32 = 4294967296) by reflexivity.
  rewrite T.
  rewrite (Z.mod_small any) by lia.
  rewrite (Z.mod_small prime) by lia.
  change (7 mod 4294967296) with 7.
  pose proof (lor_small_range (land_7_range x) Ha) as Hm.
  set (m := Z.lor (Z.land x 7) any) in *.
  split; [exact Hm | ].
  assert (4 <= m * m <= 225) by nia.
  rewrite (Z.mod_small (m * m)) by lia.
  rewrite Z.mod_small by nia.
  lia.
Qed.

Lemma sides_differ (any1 any2 x y : Z) :
  2 <= any1 <= 11 -> 2 <= any2 <= 11 ->
  side p1 any1 x <> side p2 any2 y.
Proof.
  intros H1 H2.
  destruct (@side_value p1 any1 x) as (Hm & Em);
    [unfold p1; lia | exact H1 | ].
  destruct (@side_value p2 any2 y) as (Hn & En);
    [unfold p2; lia | exact H2 | ].
  rewrite Em, En. unfold p1, p2.
  apply scaled_squares_differ; assumption.
Qed.
End Arithmetic.

(** ** The generator *)

Lemma uniform_int_distribution_range (a b : nat) (G : default_random_engine) :
  a <= b ->
  a <= fst (uniform_int_distribution a b G) <= b.
Proof.
  intros Hab. unfold uniform_int_distribution. simpl.
  pose proof (Nat.mod_upper_bound (entropy G (cursor G)) (b - a + 1)).
  lia.
Qed.

(** ** The builder and replaceZero *)

Lemma Ty_eqb_eq (a b : Ty) : Ty_eqb a b = true <-> a = b.
Proof.
  destruct a, b; simpl; split; intros H;
    try reflexivity; try discriminate; try congruence.
  - apply N.eqb_eq in H. congruence.
  - inversion H. apply N.eqb_refl.
Qed.

Lemma CreateZExtOrTrunc_i32 (V : Value) (st : State) :
  (CreateZExtOrTrunc V (IntegerTy 32) st = Returns (V, st)
   /\ getType V = IntegerTy 32)
  \/ (exists op, (op = ZExt \/ op = Trunc)
        /\ CreateZExtOrTrunc V (IntegerTy 32) st
           = Insert op (IntegerTy 32) [V] st).
Proof.
  unfold CreateZExtOrTrunc, CreateZExt, CreateTrunc. simpl.
  destruct (Ty_eqb (getType V) (IntegerTy 32)) eqn:E.
  - apply Ty_eqb_eq in E. left. rewrite E. simpl. auto.
  - destruct (getScalarSizeInBits (getType V) <? 32)%N eqn:L1.
    + right. exists ZExt. auto.
    + destruct (32 <? getScalarSizeInBits (getType V))%N eqn:L2.
      * right. exists Trunc. auto.
      * exfalso. apply N.ltb_ge in L1, L2.
        assert (S32 : getScalarSizeInBits (getType V) = 32%N) by lia.
        destruct (getType V); simpl in S32; try discriminate.
        subst bits. simpl in E. discriminate.
Qed.

Lemma CreateZExt_cases (V : Value) (T : Ty) (st : State) :
  (CreateZExt V T st = Returns (V, st) /\ getType V = T)
  \/ (CreateZExt V T st = Insert ZExt T [V] st /\ getType V <> T).
Proof.
  unfold CreateZExt.
  destruct (Ty_eqb (getType V) T) eqn:E.
  - left. apply Ty_eqb_eq in E. auto.
  - right. split; [reflexivity | ]. intros H. apply Ty_eqb_eq in H. congruence.
Qed.

Lemma replaceZero_empty (Inst : Instruction) (C : Constant) (st : State) :
  IntegerVect st = [] -> replaceZero Inst C st = Returns (None, st).
Proof.
  intros E. unfold replaceZero, bind, IntegerVect_size. rewrite E. reflexivity.
Qed.

Lemma IntegerVect_at_in_range (n : nat) (st : State) (l : list Value) :
  n < length l ->
  (exists extra, IntegerVect st = l ++ extra) ->
  exists V, IntegerVect_at n st = Returns (V, st) /\ In V l.
Proof.
  intros H [extra E]. unfold IntegerVect_at. rewrite E.
  rewrite nth_error_app1 by exact H.
  destruct (nth_error l n) as [V|] eqn:EV.
  - exists V. split; [reflexivity | ]. eapply nth_error_In; eassumption.
  - apply nth_error_None in EV. lia.
Qed.

Lemma update_same (rho : Env) (id : nat) (v : Z) : update rho id v id = v.
Proof. unfold update. rewrite Nat.eqb_refl. reflexivity. Qed.

Lemma update_other (rho : Env) (id j : nat) (v : Z) :
  j <> id -> update rho id v j = rho j.
Proof.
  intros H. unfold update. apply Nat.eqb_neq in H. rewrite H. reflexivity.
Qed.

Lemma sideEnv_result (rho : Env) (n : nat) (X any prime : Z) :
  sideEnv rho n X any prime (S (S (S n))) = side prime any X.
Proof. unfold sideEnv. apply update_same. Qed.

Lemma sideEnv_below (rho : Env) (n j : nat) (X any prime : Z) :
  j < n -> sideEnv rho n X any prime j = rho j.
Proof.
  intros H. unfold sideEnv. rewrite !update_other by lia. reflexivity.
Qed.

Lemma exec_side (rho : Env) (n : nat) (c : Value) (any prime : Z)
      (l : list Instruction) :
  execInstructions rho
    ({| inst_id := n; opcode := And; inst_ty := IntegerTy 32;
        operands := [c; VConstant (ConstantInt 32 7)] |}
     :: {| inst_id := S n; opcode := Or; inst_ty := IntegerTy 32;
           operands := [VInstruction n (IntegerTy 32);
                        VConstant (ConstantInt 32 any)] |}
     :: {| inst_id := S (S n); opcode := Mul; inst_ty := IntegerTy 32;
           operands := [VInstruction (S n) (IntegerTy 32);
                        VInstruction (S n) (IntegerTy 32)] |}
     :: {| inst_id := S (S (S n)); opcode := Mul; inst_ty := IntegerTy 32;
           operands := [VInstruction (S (S n)) (IntegerTy 32);
                        VConstant (ConstantInt 32 prime)] |}
     :: l)
  = execInstructions (sideEnv rho n (evalValue rho c) any prime) l.
Proof.
  cbn [execInstructions evalInstruction opcode operands inst_id inst_ty
       evalValue getScalarSizeInBits].
  rewrite !update_same. unfold sideEnv, side. reflexivity.
Qed.

Lemma exec_cast (rho : Env) (n : nat) (op : Opcode) (T : Ty) (c : Value)
      (l : list Instruction) :
  op = ZExt \/ op = Trunc ->
  exists v,
    execInstructions rho
      ({| inst_id := n; opcode := op; inst_ty := T; operands := [c] |} :: l)
    = execInstructions (update rho n v) l.
Proof.
  intros [-> | ->]; eexists; reflexivity.
Qed.

Lemma exec_icmp (rho : Env) (n a b : nat) :
  rho a <> rho b ->
  exists rho',
    execInstructions rho
      [{| inst_id := n; opcode := ICmpEQ; inst_ty := IntegerTy 1;
          operands := [VInstruction a (IntegerTy 32);
                       VInstruction b (IntegerTy 32)] |}]
    = Some rho' /\ evalValue rho' (VInstruction n (IntegerTy 1)) = 0%Z.
Proof.
  intros Hne.
  cbn [execInstructions evalInstruction opcode operands inst_id evalValue].
  apply Z.eqb_neq in Hne. rewrite Hne.
  eexists. split; [reflexivity | ]. apply update_same.
Qed.

Lemma exec_icmp_zext (rho : Env) (n a b : nat) (T : Ty) :
  rho a <> rho b ->
  exists rho',
    execInstructions rho
      [{| inst_id := n; opcode := ICmpEQ; inst_ty := IntegerTy 1;
          operands := [VInstruction a (IntegerTy 32);
                       VInstruction b (IntegerTy 32)] |};
       {| inst_id := S n; opcode := ZExt; inst_ty := T;
          operands := [VInstruction n (IntegerTy 1)] |}]
    = Some rho' /\ evalValue rho' (VInstruction (S n) T) = 0%Z.
Proof.
  intros Hne.
  cbn [execInstructions evalInstruction opcode operands inst_id inst_ty
       evalValue getScalarSizeInBits getType].
  apply Z.eqb_neq in Hne. rewrite Hne.
  eexists. split; [reflexivity | ].
  rewrite !update_same. reflexivity.
Qed.

Lemma draw_spec (a b : nat) (st : State) :
  a <= b ->
  exists n G,
    draw a b st
    = Returns (n, {| IntegerVect := IntegerVect st; Generator := G;
                     NextId := NextId st; Before := Before st |})
    /\ a <= n <= b.
Proof.
  intros H. unfold draw.
  pose proof (uniform_int_distribution_range (Generator st) H) as R.
  destruct (uniform_int_distribution a b (Generator st)) as [n G].
  exists n, G. split; [reflexivity | exact R].
Qed.

(** Stepping through [replaceZero]: one tactic per call that does not
    reduce by computation alone. *)
Ltac step_draw :=
  unfold bind at 1;
  match goal with
  | |- context [draw ?a ?b ?s] =>
      let n := fresh "n" in
      let G := fresh "G" in
      let E := fresh "E" in
      let R := fresh "R" in
      destruct (@draw_spec a b s) as (n & G & E & R);
      [ simpl; lia
      | rewrite E; clear E; cbv beta iota;
        cbn [IntegerVect Generator NextId Before length] in * ]
  end.

Ltac step_at l :=
  match goal with
  | |- context [IntegerVect_at ?n ?s] =>
      let x := fresh "x" in
      let E := fresh "E" in
      let Hin := fresh "Hin" in
      destruct (@IntegerVect_at_in_range n s l) as (x & E & Hin);
      [ simpl; lia
      | first [ exists []; simpl; rewrite ?app_nil_r; reflexivity
              | eexists; simpl; rewrite <- ?app_assoc; reflexivity ]
      | rewrite E; clear E ]
  end.

Ltac step_cast :=
  match goal with
  | |- context [CreateZExtOrTrunc ?V (IntegerTy 32) ?s] =>
      let HT := fresh "HT" in
      let op := fresh "op" in
      let Hop := fresh "Hop" in
      let E := fresh "E" in
      destruct (CreateZExtOrTrunc_i32 V s) as [[E HT] | (op & Hop & E)];
      rewrite E; clear E;
      [ simpl; rewrite ?HT; simpl | unfold Insert, valueOf; simpl ]
  end.

Ltac step_zext :=
  match goal with
  | |- context [CreateZExt ?V ?T ?s] =>
      let HT := fresh "HT" in
      let E := fresh "E" in
      let HI := fresh "HI" in
      destruct (CreateZExt_cases V T s) as [[E HT] | [E HT]];
      rewrite E; clear E;
      [ simpl
      | unfold Insert, valueOf; simpl;
        destruct (isIntegerTy T) eqn:HI; simpl ]
  end.

Ltac pick_disj :=
  solve [ reflexivity | assumption | left; pick_disj | right; pick_disj ].

Lemma replaceZero_some (Inst : Instruction) (C : Constant) (st : State) :
  IntegerVect st <> [] ->
  exists v st' news added,
    replaceZero Inst C st = Returns (Some v, st')
    /\ Before st' = Before st ++ news
    /\ IntegerVect st' = IntegerVect st ++ added
    /\ NextId st' = NextId st + length news
    /\ (forall Ins, In Ins news -> NextId st <= inst_id Ins < NextId st')
    /\ (forall x, In x added ->
          In x (IntegerVect st) \/ In x (integerValues news))
    /\ (forall x, In x (integerValues news) -> In x added)
    /\ In v (map valueOf news)
    /\ getType v = Constant_getType C
    /\ (forall rho, exists rho',
          execInstructions rho news = Some rho' /\ evalValue rho' v = 0%Z).
Proof.
  intros Hne. destruct st as [IV G N B]. simpl in Hne.
  destruct IV as [|v0 pool]; [congruence | clear Hne].
  unfold replaceZero. unfold bind at 1. unfold IntegerVect_size.
  cbn [IntegerVect].
  change (length (v0 :: pool) <? 1) with false. cbv iota zeta.
  do 4 step_draw.
  unfold bind, registerInteger, CreateAnd, CreateOr, CreateMul, CreateICmpEQ,
    Insert, valueOf, ret.
  step_at (v0 :: pool). step_cast; step_at (v0 :: pool); step_cast; step_zext.
  all: eexists _, _, _, _; split; [reflexivity | ];
    cbn [Before IntegerVect NextId].
  all: split; [rewrite <- ?app_assoc; reflexivity | ].
  all: split; [rewrite <- ?app_assoc; reflexivity | ].
  all: split; [simpl; lia | ].
  all: split; [simpl; intros Ins HIns; intuition (subst; simpl; lia) | ].
  all: split;
    [ unfold integerValues, valueOf; simpl; rewrite ?HI; simpl;
      intros z Hz; repeat rewrite in_app_iff in Hz; simpl in Hz;
      repeat (destruct Hz as [Hz | Hz]; [subst z; pick_disj | ]);
      contradiction | ].
  all: split;
    [ unfold integerValues, valueOf; simpl; rewrite ?HI; simpl;
      intros z Hz; repeat rewrite in_app_iff; simpl;
      repeat (destruct Hz as [Hz | Hz]; [subst z; pick_disj | ]);
      contradiction | ].
  all: split; [unfold valueOf; simpl; pick_disj | ].
  all: split; [first [assumption | reflexivity] | ].
  all: intros rho; simpl app.
  all: repeat
         first
           [ rewrite exec_side
           | match goal with
             | |- context [execInstructions ?r
                             ({| inst_id := ?n; opcode := ?op;
                                 inst_ty := ?T; operands := [?c] |} :: ?l)] =>
                 let v := fresh "v" in
                 let E := fresh "E" in
                 destruct (@exec_cast r n op T c l) as [v E];
                 [ assumption | rewrite E; clear E ]
             end ].
  all: first [apply exec_icmp | apply exec_icmp_zext].
  all: rewrite sideEnv_result.
  all: rewrite ?sideEnv_below, ?update_other by lia.
  all: rewrite sideEnv_result.
  all: apply sides_differ; lia.
Qed.

(** ** Running inserted instructions *)

Lemma exec_app (rho : Env) (l1 l2 : list Instruction) :
  execInstructions rho (l1 ++ l2) =
  match execInstructions rho l1 with
  | Some rho1 => execInstructions rho1 l2
  | None => None
  end.
Proof.
  revert rho. induction l1 as [|Ins l1 IH]; intros rho; simpl; auto.
  destruct (evalInstruction rho Ins); auto.
Qed.

Lemma exec_frame (l : list Instruction) (rho rho' : Env) (j : nat) :
  execInstructions rho l = Some rho' ->
  ~ In j (map inst_id l) -> rho' j = rho j.
Proof.
  revert rho. induction l as [|Ins l IH]; intros rho E Hj; simpl in *.
  - inversion E. reflexivity.
  - destruct (evalInstruction rho Ins) as [v|]; [ | discriminate].
    rewrite (IH _ E) by tauto.
    apply update_other. intros ->. tauto.
Qed.

Lemma Runs_nil : Runs [].
Proof. intros rho. exists rho. reflexivity. Qed.

Lemma Runs_app (n1 n2 : list Instruction) :
  Runs n1 -> Runs n2 -> Runs (n1 ++ n2).
Proof.
  intros H1 H2 rho. rewrite exec_app.
  destruct (H1 rho) as [rho1 ->]. apply H2.
Qed.

(** A value created among [n1] keeps its meaning when younger
    instructions run after [n1]. *)
Lemma Zeroed_more (n1 n2 : list Instruction) (v : Value) (bound : nat) :
  In v (map valueOf n1) ->
  (forall Ins, In Ins n1 -> inst_id Ins < bound) ->
  (forall Ins, In Ins n2 -> bound <= inst_id Ins) ->
  Zeroed n1 v -> Zeroed (n1 ++ n2) v.
Proof.
  intros Hv H1 H2 HZ rho rho2 E. rewrite exec_app in E.
  destruct (execInstructions rho n1) as [rho1|] eqn:E1; [ | discriminate].
  apply in_map_iff in Hv. destruct Hv as (Ins & <- & HIns).
  unfold valueOf, evalValue.
  rewrite (@exec_frame n2 rho1 rho2 (inst_id Ins) E).
  - exact (HZ rho rho1 E1).
  - rewrite in_map_iff. intros (Ins2 & E2 & HIns2).
    apply H1 in HIns. apply H2 in HIns2. lia.
Qed.

Lemma Zeroed_new (n1 n2 : list Instruction) (v : Value) :
  Zeroed n2 v -> Zeroed (n1 ++ n2) v.
Proof.
  intros HZ rho rho2 E. rewrite exec_app in E.
  destruct (execInstructions rho n1) as [rho1|]; [ | discriminate].
  exact (HZ rho1 rho2 E).
Qed.

(** ** What one call, one instruction and one walk add to the state *)

Lemma integerValues_app (l1 l2 : list Instruction) :
  integerValues (l1 ++ l2) = integerValues l1 ++ integerValues l2.
Proof. unfold integerValues. rewrite filter_app, map_app. reflexivity. Qed.

Lemma integerValues_incl (l : list Instruction) (v : Value) :
  In v (integerValues l) -> In v (map valueOf l).
Proof.
  unfold integerValues. rewrite !in_map_iff.
  intros (Ins & E & H). apply filter_In in H. exists Ins. tauto.
Qed.

Lemma Grows_refl (st : State) : Grows st st [].
Proof.
  unfold Grows. rewrite app_nil_r. repeat split; auto.
  - exists []. rewrite app_nil_r. reflexivity.
  - intros [H | []]. exact H.
Qed.

Lemma Grows_trans (st1 st2 st3 : State) (n1 n2 : list Instruction) :
  Grows st1 st2 n1 -> Grows st2 st3 n2 -> Grows st1 st3 (n1 ++ n2).
Proof.
  intros (B1 & [a1 A1] & S1 & N1) (B2 & [a2 A2] & S2 & N2).
  unfold Grows. repeat split.
  - rewrite B2, B1, app_assoc. reflexivity.
  - exists (a1 ++ a2). rewrite A2, A1, app_assoc. reflexivity.
  - rewrite S2, S1, integerValues_app, in_app_iff. tauto.
  - rewrite S2, S1, integerValues_app, in_app_iff. tauto.
  - lia.
Qed.

Lemma replaceZero_Grows (Inst : Instruction) (C : Constant) (st : State) :
  IntegerVect st <> [] ->
  exists v st' news,
    replaceZero Inst C st = Returns (Some v, st')
    /\ Grows st st' news
    /\ (forall Ins, In Ins news -> NextId st <= inst_id Ins < NextId st')
    /\ In v (map valueOf news)
    /\ getType v = Constant_getType C
    /\ Runs news
    /\ Zeroed news v.
Proof.
  intros H.
  destruct (@replaceZero_some Inst C st H)
    as (v & st' & news & added & E & HB & HV & HN & Hid & Ha & Hi & Hv & HT
        & Hev).
  exists v, st', news. split; [exact E | ].
  split.
  { split; [exact HB | ]. split; [exists added; exact HV | ].
    split; [ | lia].
    intros x. rewrite HV, in_app_iff. split; intros [Hx | Hx]; auto. }
  split; [exact Hid | ]. split; [exact Hv | ]. split; [exact HT | ].
  split.
  - intros rho. destruct (Hev rho) as (rho' & Ex & _). exists rho'. exact Ex.
  - intros rho rho' Ex. destruct (Hev rho) as (rho'' & Ex' & Ev).
    rewrite Ex in Ex'. inversion Ex'. subst rho''. exact Ev.
Qed.

Lemma registerInteger_Grows (Ins : Instruction) (st : State) :
  exists st', registerInteger (valueOf Ins) st = Returns (tt, st')
    /\ Grows st (advance Ins st') [Ins]
    /\ NextId (advance Ins st') = NextId st.
Proof.
  unfold registerInteger, Grows, integerValues, advance. simpl.
  destruct (isIntegerTy (inst_ty Ins)) eqn:E; eexists; (split; [reflexivity | ]);
    simpl; rewrite ?E; simpl; repeat split; auto;
    try (rewrite ?in_app_iff; simpl; tauto);
    first [ exists [valueOf Ins]; reflexivity
          | exists []; rewrite app_nil_r; reflexivity ].
Qed.

(** ** Replacing list elements *)

Lemma list_set_length {A} (l : list A) (i : nat) (x : A) :
  length (list_set l i x) = length l.
Proof.
  revert i. induction l as [|y l IH]; intros [|i]; simpl; auto.
Qed.

Lemma list_set_same {A} (l : list A) (i : nat) (x : A) :
  i < length l -> nth_error (list_set l i x) i = Some x.
Proof.
  revert i. induction l as [|y l IH]; intros [|i] H; simpl in *; try lia; auto.
  apply IH. lia.
Qed.

Lemma list_set_other {A} (l : list A) (i j : nat) (x : A) :
  j <> i -> nth_error (list_set l i x) j = nth_error l j.
Proof.
  revert i j. induction l as [|y l IH]; intros [|i] [|j] H; simpl; auto;
    try lia.
Qed.

(** ** Loops *)

(** A property kept by every turn of the body holds when the loop ends,
    and the loop does end. *)
Lemma for_each_invariant {A S} (body : A -> S -> Outcome S) (P : S -> Prop)
      (l : list A) (s : S) :
  P s ->
  (forall a s1, In a l -> P s1 -> exists s2, body a s1 = Returns s2 /\ P s2) ->
  exists s', for_each body l s = Returns s' /\ P s'.
Proof.
  revert s. induction l as [|a l IH]; intros s Hs Hbody; simpl.
  - exists s. auto.
  - destruct (Hbody a s) as (s2 & E & H2); [left; reflexivity | exact Hs | ].
    rewrite E. apply IH; auto.
    intros a' s1 Ha'. apply Hbody. right. exact Ha'.
Qed.

(** ** The loop over the operands of one instruction *)

Lemma isValidCandidateOperand_Some (V : Value) (C : Constant) :
  isValidCandidateOperand V = Some C -> V = VConstant C.
Proof.
  unfold isValidCandidateOperand. destruct V as [C'| | |]; simpl; try discriminate.
  destruct (isa_PointerType _); [discriminate | ].
  destruct (isFloatingPointTy _); [discriminate | ].
  destruct (isNullValue C'); [ | discriminate].
  intros H. inversion H. reflexivity.
Qed.

Lemma isValidCandidateOperand_null (C : Constant) :
  isValidCandidateOperand (VConstant C) = Some C -> isNullValue C = true.
Proof.
  unfold isValidCandidateOperand. simpl.
  destruct (isa_PointerType _); [discriminate | ].
  destruct (isFloatingPointTy _); [discriminate | ].
  destruct (isNullValue C); [reflexivity | discriminate].
Qed.

Lemma integer_zero_value (rho : Env) (C : Constant) :
  isIntegerTy (Constant_getType C) = true ->
  isNullValue C = true ->
  evalValue rho (VConstant C) = 0%Z.
Proof.
  intros HI HN. destruct C; simpl in HI, HN; try discriminate.
  simpl. apply Z.eqb_eq. exact HN.
Qed.

Lemma created_not_constant (news : list Instruction) (C : Constant) :
  ~ In (VConstant C) (map valueOf news).
Proof.
  rewrite in_map_iff. intros (Ins & E & _). discriminate.
Qed.

Lemma Replaced_changes (X X' : Instruction) (news : list Instruction) (i : nat) :
  Replaced X X' news i -> operands X' <> operands X.
Proof.
  intros (C & v & H0 & _ & H1 & _ & Hv & _) E.
  unfold getOperand in *. rewrite E, H0 in H1. inversion H1. subst v.
  exact (created_not_constant _ _ Hv).
Qed.

Lemma InnerRel_start (X : Instruction) (m : bool) (st : State) :
  InnerRel X m st (X, m, st).
Proof.
  exists []. split; [apply Grows_refl | ].
  split; [intros Ins [] | ].
  split; [repeat split | ].
  split; [intros i; left; reflexivity | ].
  split; [left; auto | apply Runs_nil].
Qed.

Lemma operandBody_InnerRel (X : Instruction) (m : bool) (st : State) (i : nat)
      (s1 : Instruction * bool * State) :
  InnerRel X m st s1 ->
  exists s2, operandBody i s1 = Returns s2 /\ InnerRel X m st s2.
Proof.
  destruct s1 as [[X1 m1] st1].
  intros (news & HG & Hid & HS & HO & Hm & HRun).
  assert (Hsame : InnerRel X m st (X1, m1, st1)).
  { exists news. exact (conj HG (conj Hid (conj HS (conj HO (conj Hm HRun))))). }
  unfold operandBody.
  destruct (getOperand X1 i) as [V|] eqn:EV;
    [ | eexists; split; [reflexivity | exact Hsame] ].
  destruct (isValidCandidateOperand V) as [C|] eqn:EC;
    [ | eexists; split; [reflexivity | exact Hsame] ].
  apply isValidCandidateOperand_Some in EC as EVC. subst V.
  destruct (IntegerVect st1) as [|v0 pool] eqn:EP.
  - rewrite (replaceZero_empty X1 C st1 EP).
    eexists; split; [reflexivity | exact Hsame].
  - destruct (@replaceZero_Grows X1 C st1)
      as (v & st2 & n2 & E & HG2 & Hid2 & Hv & HT & HRun2 & HZ2);
      [rewrite EP; discriminate | ].
    rewrite E. eexists; split; [reflexivity | ].
    assert (Hi : i < length (operands X1)).
    { apply nth_error_Some. unfold getOperand in EV. rewrite EV. discriminate. }
    assert (HX : getOperand X i = Some (VConstant C)).
    { destruct (HO i) as [Hi' | (C' & v' & _ & _ & H1 & _ & Hv' & _)].
      - rewrite <- Hi'. exact EV.
      - rewrite EV in H1. inversion H1. subst v'.
        destruct (created_not_constant _ _ Hv'). }
    assert (HR : Replaced X (setOperand X1 i v) (news ++ n2) i).
    { exists C, v. split; [exact HX | ]. split; [exact EC | ].
      split; [unfold getOperand, setOperand; simpl; apply list_set_same;
              exact Hi | ].
      split; [exact HT | ].
      split; [rewrite map_app, in_app_iff; auto | ].
      apply Zeroed_new. exact HZ2. }
    exists (news ++ n2).
    split; [eapply Grows_trans; eassumption | ].
    split.
    { intros Ins H. apply in_app_or in H.
      destruct HG as (_ & _ & _ & HN). destruct HG2 as (_ & _ & _ & HN2).
      destruct H as [H | H]; [apply Hid in H | apply Hid2 in H]; lia. }
    split.
    { destruct HS as (S1 & S2 & S3 & S4). repeat split; auto.
      unfold getNumOperands, setOperand in *. simpl.
      rewrite list_set_length. exact S4. }
    split.
    { intros j. destruct (Nat.eq_dec j i) as [-> | Hj]; [right; exact HR | ].
      assert (Ej : getOperand (setOperand X1 i v) j = getOperand X1 j).
      { unfold getOperand, setOperand. simpl. apply list_set_other. exact Hj. }
      destruct (HO j) as [Hj' | (C' & v' & H0 & HC & H1 & HT' & Hv' & HZ')].
      - left. rewrite Ej. exact Hj'.
      - right. exists C', v'. rewrite Ej, map_app, in_app_iff.
        assert (Zeroed (news ++ n2) v').
        { apply Zeroed_more with (bound := NextId st1); auto.
          - intros Ins H. apply Hid in H. lia.
          - intros Ins H. apply Hid2 in H. lia. }
        tauto. }
    split; [ | apply Runs_app; assumption].
    right. split; [reflexivity | ]. exists i. exact HR.
Qed.

Lemma operandLoop_InnerRel (X : Instruction) (m : bool) (st : State)
      (l : list nat) :
  exists s, for_each operandBody l (X, m, st) = Returns s
            /\ InnerRel X m st s.
Proof.
  apply for_each_invariant.
  - apply InnerRel_start.
  - intros i s1 _ H. apply operandBody_InnerRel. exact H.
Qed.

(** ** The loop over the instructions *)

Lemma instBody_InstRel (X : Instruction) (m : bool) (st : State) :
  exists m' st' news X',
    instBody X (m, st) = Returns (m', st') /\ InstRel X m st m' st' news X'.
Proof.
  unfold instBody.
  assert (H : exists s,
             (if isValidCandidateInstruction X
              then for_each operandBody (seq 0 (getNumOperands X)) (X, m, st)
              else Returns (X, m, st)) = Returns s
             /\ InnerRel X m st s
             /\ (isValidCandidateInstruction X = false -> s = (X, m, st))).
  { destruct (isValidCandidateInstruction X).
    - destruct (operandLoop_InnerRel X m st (seq 0 (getNumOperands X)))
        as (s & E & H).
      exists s. repeat split; auto. discriminate.
    - exists (X, m, st). repeat split; auto. apply InnerRel_start. }
  destruct H
    as ([[X1 m1] st1] & -> & (news & HG & Hid & HS & HO & Hm & HRun) & Hex).
  destruct (registerInteger_Grows X1 st1) as (st2 & -> & HG2 & HN).
  exists m1, (advance X1 st2), news, X1. split; [reflexivity | ].
  split; [eapply Grows_trans; eassumption | ].
  split; [intros Ins H; apply Hid in H; rewrite HN; exact H | ].
  split; [exact HS | ]. split; [exact HO | ].
  split; [destruct Hm as [(-> & -> & _ & ->) | Hm]; auto | ].
  split; [ | exact HRun].
  intros Hx. specialize (Hex Hx). inversion Hex. subst.
  destruct Hm as [(_ & _ & _ & ->) | (_ & i & Hr)]; auto.
  destruct (Replaced_changes Hr). reflexivity.
Qed.

Lemma walk_WalkRel (l : list Instruction) (m : bool) (st : State) :
  exists m' st' outs,
    for_each instBody l (m, st) = Returns (m', st')
    /\ WalkRel l m st m' st' outs.
Proof.
  revert m st. induction l as [|X l IH]; intros m st.
  - exists m, st, []. split; [reflexivity | ].
    split; [apply Grows_refl | ]. split; [constructor | ].
    split; [intros Ins [] | ].
    simpl. rewrite Exists_nil. tauto.
  - destruct (instBody_InstRel X m st)
      as (m1 & st1 & news & X1 & E & HG & Hid & HS & HO & Hm & Hex & HRun).
    destruct (IH m1 st1) as (m2 & st2 & outs & E2 & HG2 & HF & Hid2 & Hm2).
    exists m2, st2, ((news, X1) :: outs).
    split; [cbn [for_each]; rewrite E; exact E2 | ].
    assert (N1 : NextId st <= NextId st1) by apply HG.
    assert (N2 : NextId st1 <= NextId st2) by apply HG2.
    split; [simpl; eapply Grows_trans; eassumption | ].
    split;
      [constructor; [exact (conj HS (conj HO (conj Hex HRun))) | exact HF] | ].
    split.
    + simpl. intros Ins H. rewrite !in_app_iff in H. simpl in H.
      destruct H as [[H | [H | []]] | H].
      * apply Hid in H. lia.
      * subst Ins. left. left. symmetry. apply HS.
      * apply Hid2 in H. destruct H as [H | H]; [auto | lia].
    + simpl. rewrite Exists_cons, Hm2.
      destruct Hm as [(-> & -> & _) | (-> & i & Hr)].
      * assert (~ Overwritten (X, (news, X))) by (intros H; apply H; reflexivity).
        tauto.
      * assert (Overwritten (X, (news, X1))) by exact (Replaced_changes Hr).
        tauto.
Qed.

(** ** Where the walk starts *)

Lemma getFirstNonPHI_split (BB : BasicBlock) :
  BB = fst (getFirstNonPHI BB) ++ snd (getFirstNonPHI BB).
Proof.
  induction BB as [|P BB IH]; simpl; [reflexivity | ].
  destruct (isa_PHINode P); [ | reflexivity].
  destruct (getFirstNonPHI BB) as [phis rest]. simpl in *. congruence.
Qed.


Lemma getFirstInsertionPt_split (BB : BasicBlock) :
  BB = fst (getFirstInsertionPt BB) ++ snd (getFirstInsertionPt BB).
Proof.
  unfold getFirstInsertionPt.
  pose proof (getFirstNonPHI_split BB) as H.
  destruct (getFirstNonPHI BB) as [phis rest]. simpl in H.
  destruct rest as [|P rest]; simpl.
  - exact H.
  - destruct (isEHPad P); simpl; [rewrite <- app_assoc | ]; exact H.
Qed.


(** The walk of a whole block: it returns, and what it leaves. *)
Lemma runOnBasicBlock_WalkRel (BB : BasicBlock) (st : State) :
  exists m st' outs,
    runOnBasicBlock BB st = Returns (m, st')
    /\ WalkRel (snd (getFirstInsertionPt BB)) false (enter BB st) m st' outs
    /\ Before st' = fst (getFirstInsertionPt BB) ++ assemble outs.
Proof.
  unfold runOnBasicBlock.
  destruct (walk_WalkRel (snd (getFirstInsertionPt BB)) false (enter BB st))
    as (m & st' & outs & E & H).
  exists m, st', outs. split; [exact E | ]. split; [exact H | ].
  destruct H as ((HB & _) & _). exact HB.
Qed.

Lemma Forall2_In_l {A B} (R : A -> B -> Prop) (l : list A) (l' : list B)
      (a : A) :
  Forall2 R l l' -> In a l -> exists b, In b l' /\ R a b.
Proof.
  induction 1 as [|x y l l' Hxy _ IH]; intros Ha; [destruct Ha | ].
  destruct Ha as [-> | Ha].
  - exists y. split; [left; reflexivity | exact Hxy].
  - destruct (IH Ha) as (b & Hb & Hab). exists b. split; [right | ]; auto.
Qed.

Lemma In_assemble (outs : list (list Instruction * Instruction))
      (o : list Instruction * Instruction) :
  In o outs -> In (snd o) (assemble outs).
Proof.
  intros H. unfold assemble. apply in_flat_map. exists o. split; [exact H | ].
  apply in_or_app. right. left. reflexivity.
Qed.

(** ** The empty vector, and values defined before the visited instruction *)

Lemma operandBody_empty (X : Instruction) (m : bool) (st : State) (i : nat) :
  IntegerVect st = [] -> operandBody i (X, m, st) = Returns (X, m, st).
Proof.
  intros E. unfold operandBody.
  destruct (getOperand X i) as [V|]; [ | reflexivity].
  destruct (isValidCandidateOperand V) as [C|]; [ | reflexivity].
  rewrite (replaceZero_empty X C st E). reflexivity.
Qed.

Lemma operandLoop_empty (X : Instruction) (m : bool) (st : State)
      (l : list nat) :
  IntegerVect st = [] -> for_each operandBody l (X, m, st) = Returns (X, m, st).
Proof.
  intros E. induction l as [|i l IH]; cbn [for_each]; [reflexivity | ].
  rewrite (operandBody_empty X m st i E). exact IH.
Qed.

Lemma Grows_defined (st st' : State) (news : list Instruction) :
  Grows st st' news ->
  (forall v, In v (IntegerVect st) -> In v (map valueOf (Before st))) ->
  forall v, In v (IntegerVect st') -> In v (map valueOf (Before st')).
Proof.
  intros (HB & _ & HS & _) H v Hv. rewrite HB, map_app, in_app_iff.
  apply HS in Hv. destruct Hv as [Hv | Hv]; [left; auto | right].
  apply integerValues_incl. exact Hv.
Qed.

Lemma In_map_inst_id (l : list Instruction) (X : Instruction) :
  In (valueOf X) (map valueOf l) -> In (inst_id X) (map inst_id l).
Proof.
  rewrite !in_map_iff. intros (Ins & E & H). exists Ins. split; [ | exact H].
  unfold valueOf in E. congruence.
Qed.

(** ** Splitting a loop *)

Lemma for_each_app {A S} (body : A -> S -> Outcome S) (l1 l2 : list A)
      (s : S) :
  for_each body (l1 ++ l2) s
  = match for_each body l1 s with
    | Returns s' => for_each body l2 s'
    | Throws_out_of_range => Throws_out_of_range
    end.
Proof.
  revert s. induction l1 as [|a l1 IH]; intros s; simpl; [reflexivity | ].
  destruct (body a s); [apply IH | reflexivity].
Qed.

Lemma operandLoop_past_end (X : Instruction) (m : bool) (st : State)
      (start len : nat) :
  getNumOperands X <= start ->
  for_each operandBody (seq start len) (X, m, st) = Returns (X, m, st).
Proof.
  revert start. induction len as [|len IH]; intros start H; [reflexivity | ].
  cbn [seq for_each]. unfold operandBody at 1.
  assert (E : getOperand X start = None).
  { apply nth_error_None. exact H. }
  rewrite E. apply IH. lia.
Qed.

(** The loop over the first [i] operand indices, then over the
    remaining ones, is the loop [instBody] runs. *)
Lemma operandLoop_resume (X : Instruction) (m : bool) (st : State) (i : nat)
      (Xi : Instruction) (mi : bool) (sti : State) :
  for_each operandBody (seq 0 i) (X, m, st) = Returns (Xi, mi, sti) ->
  for_each operandBody (seq i (getNumOperands X - i)) (Xi, mi, sti)
  = for_each operandBody (seq 0 (getNumOperands X)) (X, m, st).
Proof.
  intros E. destruct (Nat.le_gt_cases i (getNumOperands X)) as [H | H].
  - replace (getNumOperands X) with (i + (getNumOperands X - i)) at 2 by lia.
    rewrite seq_app, for_each_app, E. reflexivity.
  - replace (getNumOperands X - i) with 0 by lia. cbn [seq for_each].
    replace i with (getNumOperands X + (i - getNumOperands X)) in E by lia.
    rewrite seq_app, for_each_app in E.
    destruct (operandLoop_InnerRel X m st (seq 0 (getNumOperands X)))
      as ([[Xn mn] stn] & En & news & _ & _ & HS & _).
    rewrite En in E. rewrite En.
    rewrite operandLoop_past_end in E by (destruct HS as (_ & _ & _ & ->); lia).
    symmetry. exact E.
Qed.

(** ** Running the example *)

Example example_run_flag :
  exists st',
    runOnBasicBlock example_block example_state = Returns (true, st')
    /\ NextId st' = 40
    /\ length (Before st') = 37.
Proof. eexists. split; [vm_compute; reflexivity | ]. split; reflexivity. Qed.

Example example_run_add_kept :
  exists m st',
    runOnBasicBlock example_block example_state = Returns (m, st')
    /\ nth_error (Before st') 1 = Some example_add.
Proof. eexists _, _. split; [vm_compute; reflexivity | ]. reflexivity. Qed.

Example example_run_sub_replaced :
  exists m st',
    runOnBasicBlock example_block example_state = Returns (m, st')
    /\ nth_error (Before st') 13
       = Some {| inst_id := 3; opcode := Sub; inst_ty := IntegerTy 32;
                 operands := [VInstruction 1 (IntegerTy 32);
                              VInstruction 19 (IntegerTy 32)] |}.
Proof. eexists _, _. split; [vm_compute; reflexivity | ]. reflexivity. Qed.

(** The ingredient [%1] is already an [i32]: the cast returns it and it
    is registered again. *)
Example example_registered_again :
  exists v st',
    replaceZero example_sub (ConstantInt 32 0) example_state_1
    = Returns (Some v, st')
    /\ v = VInstruction 19 (IntegerTy 32)
    /\ firstn 3 (IntegerVect st')
       = [VInstruction 1 (IntegerTy 32); VInstruction 1 (IntegerTy 32);
          VInstruction 10 (IntegerTy 32)].
Proof. eexists _, _. split; [vm_compute; reflexivity | ]. split; reflexivity. Qed.

(** The inserted instructions, run with [%1 = 5]: the two products are
    [431 * 13^2] and [277 * 7^2], and the result is 0. *)
Example example_replacement_value :
  exists v st' rho,
    replaceZero example_sub (ConstantInt 32 0) example_state_1
    = Returns (Some v, st')
    /\ execInstructions (fun _ => 5%Z) (skipn 3 (Before st')) = Some rho
    /\ rho 13 = 72839%Z /\ rho 17 = 13573%Z
    /\ evalValue rho v = 0%Z.
Proof.
  eexists _, _, _. split; [vm_compute; reflexivity | ].
  split; [vm_compute; reflexivity | ]. repeat split; reflexivity.
Qed.

Example example_operand_filter :
  isValidCandidateOperand (VConstant (ConstantInt 32 0))
  = Some (ConstantInt 32 0)
  /\ isValidCandidateOperand (VConstant (ConstantInt 32 7)) = None
  /\ isValidCandidateOperand (VConstant (ConstantFP 0)) = None
  /\ isValidCandidateOperand (VConstant ConstantPointerNull) = None
  /\ isValidCandidateOperand (VConstant ConstantAggregateZero)
     = Some ConstantAggregateZero
  /\ isValidCandidateOperand (VInstruction 1 (IntegerTy 32)) = None.
Proof. repeat split; reflexivity. Qed.

(** * The claims

    Each claim is followed by its instance on the example block. *)

(** C1. For all 32-bit ingredients [x], [y] and all draws [any1],
    [any2] of 2..11 the two products, computed modulo [2^32], are
    [431 * m1^2] and [277 * m2^2] with [m = (x & 7) | any] and differ.
    Hence, for an integer zero, the instructions [replaceZero] inserts
    run under every assignment of runtime values, and the value it
    returns evaluates to the value of the zero it replaces.  In the
    block the pass leaves, when the instructions inserted before a
    visited instruction have run, each of its operands is the one it
    was or, where it replaces an integer zero, evaluates to zero as that
    zero does. *)
Theorem C1_replacement_evaluates_to_zero :
  (forall x y any1 any2 : Z,
      (2 <= any1 <= 11)%Z -> (2 <= any2 <= 11)%Z ->
      side p1 any1 x = (431 * (Z.lor (Z.land x 7) any1) ^ 2)%Z
      /\ side p2 any2 y = (277 * (Z.lor (Z.land y 7) any2) ^ 2)%Z
      /\ side p1 any1 x <> side p2 any2 y)
  /\ (forall Inst C st,
         IntegerVect st <> [] ->
         isIntegerTy (Constant_getType C) = true ->
         isNullValue C = true ->
         exists v st' news,
           replaceZero Inst C st = Returns (Some v, st')
           /\ Before st' = Before st ++ news
           /\ forall rho, exists rho',
                execInstructions rho news = Some rho'
                /\ evalValue rho' v = 0%Z
                /\ evalValue rho' v = evalValue rho' (VConstant C))
  /\ (forall BB st,
         exists m st' outs,
           runOnBasicBlock BB st = Returns (m, st')
           /\ Before st' = fst (getFirstInsertionPt BB) ++ assemble outs
           /\ Forall2
                (fun X o =>
                   forall rho, exists rho',
                     execInstructions rho (fst o) = Some rho'
                     /\ forall i,
                          getOperand (snd o) i = getOperand X i
                          \/ exists C v,
                               getOperand X i = Some (VConstant C)
                               /\ getOperand (snd o) i = Some v
                               /\ (isIntegerTy (Constant_getType C) = true ->
                                   evalValue rho' v = 0%Z
                                   /\ evalValue rho' (VConstant C) = 0%Z))
                (snd (getFirstInsertionPt BB)) outs).
Proof.
  split; [ | split].
  - intros x y any1 any2 H1 H2.
    destruct (@side_value p1 any1 x) as (_ & E1);
      [unfold p1; lia | exact H1 | ].
    destruct (@side_value p2 any2 y) as (_ & E2);
      [unfold p2; lia | exact H2 | ].
    split; [rewrite E1; unfold p1; lia | ].
    split; [rewrite E2; unfold p2; lia | ].
    apply sides_differ; assumption.
  - intros Inst C st Hne HI HN.
    destruct (@replaceZero_some Inst C st Hne)
      as (v & st' & news & added & E & HB & _ & _ & _ & _ & _ & _ & _ & Hev).
    exists v, st', news. split; [exact E | ]. split; [exact HB | ].
    intros rho. destruct (Hev rho) as (rho' & Ex & Ev).
    exists rho'. split; [exact Ex | ]. split; [exact Ev | ].
    rewrite Ev. symmetry. apply integer_zero_value; assumption.
  - intros BB st.
    destruct (runOnBasicBlock_WalkRel BB st)
      as (m & st' & outs & E & (_ & HF & _) & HB).
    exists m, st', outs. split; [exact E | ]. split; [exact HB | ].
    eapply Forall2_impl; [ | exact HF].
    intros X o (_ & HO & _ & HRun) rho.
    destruct (HRun rho) as [rho' Ex]. exists rho'. split; [exact Ex | ].
    intros i.
    destruct (HO i) as [Hs | (C & v & H0 & HC & H1 & _ & _ & HZ)];
      [left; exact Hs | right].
    exists C, v. split; [exact H0 | ]. split; [exact H1 | ].
    intros HI. split; [exact (HZ rho rho' Ex) | ].
    apply integer_zero_value; [exact HI | ].
    apply isValidCandidateOperand_null. exact HC.
Qed.

(** C1 on the example: the zero of [%3 = sub i32 %1, 0], with [%1] in the
    vector. *)
Lemma C1_witness :
  exists v st' news,
    replaceZero example_sub (ConstantInt 32 0) example_state_1
    = Returns (Some v, st')
    /\ Before st' = Before example_state_1 ++ news
    /\ forall rho, exists rho',
         execInstructions rho news = Some rho'
         /\ evalValue rho' v = 0%Z
         /\ evalValue rho' v = evalValue rho' (VConstant (ConstantInt 32 0)).
Proof.
  apply (proj1 (proj2 C1_replacement_evaluates_to_zero)).
  - discriminate.
  - reflexivity.
  - reflexivity.
Defined.

(** C2. [isValidCandidateOperand] returns the constant exactly when the
    value is a constant whose type is neither a pointer type nor a
    floating-point type and which is the all-zero value of its type;
    in every other case it returns no match.  In particular the null
    pointer and floating-point constants are never matched. *)
Theorem C2_isValidCandidateOperand_iff :
  (forall V C,
      isValidCandidateOperand V = Some C <->
      (V = VConstant C
       /\ isa_PointerType (Constant_getType C) = false
       /\ isFloatingPointTy (Constant_getType C) = false
       /\ isNullValue C = true))
  /\ (forall V,
         isValidCandidateOperand V = None <->
         ~ exists C, V = VConstant C
                     /\ isa_PointerType (Constant_getType C) = false
                     /\ isFloatingPointTy (Constant_getType C) = false
                     /\ isNullValue C = true)
  /\ isValidCandidateOperand (VConstant ConstantPointerNull) = None
  /\ (forall pattern,
         isValidCandidateOperand (VConstant (ConstantFP pattern)) = None).
Proof.
  assert (Hiff : forall V C,
      isValidCandidateOperand V = Some C <->
      (V = VConstant C
       /\ isa_PointerType (Constant_getType C) = false
       /\ isFloatingPointTy (Constant_getType C) = false
       /\ isNullValue C = true)).
  { intros V C. split.
    - intros H. pose proof (isValidCandidateOperand_Some _ H) as ->.
      unfold isValidCandidateOperand in H. simpl in H.
      destruct (isa_PointerType _); [discriminate | ].
      destruct (isFloatingPointTy _); [discriminate | ].
      destruct (isNullValue C); [auto | discriminate].
    - intros (-> & HP & HF & HN).
      unfold isValidCandidateOperand. simpl. rewrite HP, HF, HN. reflexivity. }
  split; [exact Hiff | ]. split; [ | split; [reflexivity | reflexivity]].
  intros V. split.
  - intros HNone (C & HC). apply Hiff in HC. congruence.
  - intros Hno. destruct (isValidCandidateOperand V) as [C|] eqn:E; auto.
    destruct Hno. exists C. apply Hiff. exact E.
Qed.

(** C3. [isValidCandidateInstruction] is false exactly for
    getelementptr, switch and call instructions and true for every other
    kind; and every such instruction of a block is found unchanged in
    the block [runOnBasicBlock] leaves, with nothing inserted for it. *)
Theorem C3_excluded_instructions_untouched :
  (forall Inst,
      isValidCandidateInstruction Inst = false <->
      (opcode Inst = GetElementPtr \/ opcode Inst = Switch
       \/ opcode Inst = Call))
  /\ (forall BB st,
         exists m st' outs,
           runOnBasicBlock BB st = Returns (m, st')
           /\ Before st' = fst (getFirstInsertionPt BB) ++ assemble outs
           /\ Forall2 (fun X o =>
                         isValidCandidateInstruction X = false ->
                         snd o = X /\ fst o = [])
                      (snd (getFirstInsertionPt BB)) outs
           /\ (forall X, In X BB ->
                         isValidCandidateInstruction X = false ->
                         In X (Before st'))).
Proof.
  split.
  - intros Inst. unfold isValidCandidateInstruction.
    destruct (opcode Inst); split; intros H; try discriminate; auto;
      destruct H as [H | [H | H]]; discriminate.
  - intros BB st.
    destruct (runOnBasicBlock_WalkRel BB st)
      as (m & st' & outs & E & (_ & HF & _) & HB).
    exists m, st', outs. split; [exact E | ]. split; [exact HB | ]. split.
    + eapply Forall2_impl; [ | exact HF]. intros X o HK. apply HK.
    + intros X HX Hex. rewrite HB.
      rewrite (getFirstInsertionPt_split BB) in HX.
      apply in_or_app. apply in_app_or in HX. destruct HX as [HX | HX]; auto.
      right. destruct (Forall2_In_l X HF HX) as (o & Ho & _ & _ & HK & _).
      destruct (HK Hex) as [<- _]. apply In_assemble. exact Ho.
Qed.

(** C3 on the example: the getelementptr is in the block the pass leaves. *)
Lemma C3_witness :
  exists m st',
    runOnBasicBlock example_block example_state = Returns (m, st')
    /\ In example_gep (Before st').
Proof.
  destruct (proj2 C3_excluded_instructions_untouched example_block example_state)
    as (m & st' & outs & E & _ & _ & H).
  exists m, st'. split; [exact E | ].
  apply H; [simpl; tauto | reflexivity].
Defined.

(** C4. With an empty vector [replaceZero] returns null and leaves the
    state as it is; the driver then keeps every operand of the visited
    instruction and the flag, registers the instruction and goes on to
    the next one.  So the first visited instruction of a block is found
    unchanged in the block the pass leaves. *)
Theorem C4_empty_pool_is_skipped :
  (forall Inst C st,
      IntegerVect st = [] -> replaceZero Inst C st = Returns (None, st))
  /\ (forall X m st rest,
         IntegerVect st = [] ->
         exists st1,
           registerInteger (valueOf X) st = Returns (tt, st1)
           /\ instBody X (m, st) = Returns (m, advance X st1)
           /\ for_each instBody (X :: rest) (m, st)
              = for_each instBody rest (m, advance X st1))
  /\ (forall BB st X rest,
         snd (getFirstInsertionPt BB) = X :: rest ->
         exists m st',
           runOnBasicBlock BB st = Returns (m, st')
           /\ nth_error (Before st') (length (fst (getFirstInsertionPt BB)))
              = Some X).
Proof.
  assert (Hinst : forall X m st,
             IntegerVect st = [] ->
             exists st1,
               registerInteger (valueOf X) st = Returns (tt, st1)
               /\ instBody X (m, st) = Returns (m, advance X st1)).
  { intros X m st E.
    destruct (registerInteger_Grows X st) as (st1 & E1 & _).
    exists st1. split; [exact E1 | ].
    unfold instBody. rewrite (operandLoop_empty X m st _ E).
    destruct (isValidCandidateInstruction X); rewrite E1; reflexivity. }
  split; [exact replaceZero_empty | ]. split.
  - intros X m st rest E. destruct (Hinst X m st E) as (st1 & E1 & E2).
    exists st1. split; [exact E1 | ]. split; [exact E2 | ].
    cbn [for_each]. rewrite E2. reflexivity.
  - intros BB st X rest HX.
    destruct (Hinst X false (enter BB st) eq_refl) as (st1 & E1 & E2).
    destruct (walk_WalkRel rest false (advance X st1))
      as (m & st' & outs & E & (HB & _) & _).
    exists m, st'. unfold runOnBasicBlock. rewrite HX. cbn [for_each].
    rewrite E2. split; [exact E | ].
    rewrite HB.
    assert (HB1 : Before (advance X st1)
                  = fst (getFirstInsertionPt BB) ++ [X]).
    { unfold registerInteger in E1. simpl in E1.
      destruct (isIntegerTy (inst_ty X)); inversion E1; reflexivity. }
    rewrite HB1, <- app_assoc. rewrite nth_error_app2 by lia.
    rewrite Nat.sub_diag. reflexivity.
Qed.

(** C4 on the example: [%1 = add i32 %0, 0] is visited with an empty
    vector and keeps its zero. *)
Lemma C4_witness :
  exists m st',
    runOnBasicBlock example_block example_state = Returns (m, st')
    /\ nth_error (Before st') 1 = Some example_add.
Proof.
  exact (proj2 (proj2 C4_empty_pool_is_skipped) example_block example_state
               example_add
               [example_gep; example_sub; example_store; example_vstore;
                example_ret]
               eq_refl).
Defined.

(** C5. Take the walk of a block whose instructions have distinct
    identities, all older than the values the pass creates, at any
    moment of the loop over the operands of a visited instruction [X]
    (after [pre] was visited and [i] operands of [X] were treated; this
    is the state [replaceZero] is called in for operand [i]).  Every
    value of the vector is then the result of an instruction placed
    before [X] in the block, and [X] itself is neither among these
    instructions nor in the vector.  The visit of [X] by [instBody] is
    this loop carried on from that state over the remaining operands;
    [X] is still not in the vector when the loop ends, and the vector
    the visit leaves is the one the loop leaves followed, if [X] is
    integer-typed, by [X] alone: [X] is registered last. *)
Theorem C5_pool_values_defined_before
        (BB : BasicBlock) (st : State)
        (pre post : list Instruction) (X : Instruction)
        (m1 : bool) (st1 : State) (i : nat)
        (Xi : Instruction) (m2 : bool) (st2 : State) :
  NoDup (map inst_id BB) ->
  (forall Ins, In Ins BB -> inst_id Ins < NextId st) ->
  snd (getFirstInsertionPt BB) = pre ++ X :: post ->
  for_each instBody pre (false, enter BB st) = Returns (m1, st1) ->
  for_each operandBody (seq 0 i) (X, m1, st1) = Returns (Xi, m2, st2) ->
  (forall v, In v (IntegerVect st2) -> In v (map valueOf (Before st2)))
  /\ ~ In (inst_id X) (map inst_id (Before st2))
  /\ ~ In (valueOf X) (IntegerVect st2)
  /\ exists Xn mn stn st3,
       (if isValidCandidateInstruction X
        then for_each operandBody (seq i (getNumOperands X - i)) (Xi, m2, st2)
        else Returns (X, m1, st1)) = Returns (Xn, mn, stn)
       /\ ~ In (valueOf X) (IntegerVect stn)
       /\ instBody X (m1, st1) = Returns (mn, st3)
       /\ IntegerVect st3
          = IntegerVect stn
            ++ (if isIntegerTy (inst_ty X) then [valueOf X] else [])
       /\ Before st3 = Before stn ++ [Xn]
       /\ (isIntegerTy (inst_ty X) = true ->
           In (valueOf X) (IntegerVect st3)).
Proof.
  intros Hnd Hold Hsplit E1 E2.
  destruct (walk_WalkRel pre false (enter BB st))
    as (m1' & st1' & outs & E1' & HG & HF & Hid & _).
  rewrite E1 in E1'. inversion E1'. subst m1' st1'. clear E1'.
  assert (HBB : BB = fst (getFirstInsertionPt BB) ++ pre ++ X :: post).
  { rewrite <- Hsplit. apply getFirstInsertionPt_split. }
  assert (Hloop : forall l Xl ml stl,
             for_each operandBody l (X, m1, st1) = Returns (Xl, ml, stl) ->
             (forall v, In v (IntegerVect stl) ->
                        In v (map valueOf (Before stl)))
             /\ ~ In (inst_id X) (map inst_id (Before stl))
             /\ SameShape X Xl).
  { intros l Xl ml stl El.
    destruct (operandLoop_InnerRel X m1 st1 l) as (s & El' & HI).
    rewrite El in El'. inversion El'. subst s. clear El'.
    destruct HI as (news & HG2 & Hid2 & HS & _).
    split.
    { apply (Grows_defined HG2). apply (Grows_defined HG). intros v []. }
    split; [ | exact HS].
    destruct HG as (HB1 & _ & _ & HN1). destruct HG2 as (HB2 & _ & _ & HN2).
    unfold enter in HB1, HN1, Hid. simpl in HB1, HN1, Hid.
    rewrite HB2, HB1, !map_app, !in_app_iff.
    rewrite HBB, !map_app in Hnd. simpl in Hnd.
    assert (HX : inst_id X < NextId st).
    { apply Hold. rewrite HBB. apply in_or_app. right. apply in_or_app.
      right. left. reflexivity. }
    intros [[H | H] | H].
    - rewrite app_assoc in Hnd.
      apply NoDup_remove_2 in Hnd. apply Hnd.
      rewrite in_app_iff. left. rewrite in_app_iff. left. exact H.
    - apply in_map_iff in H. destruct H as (Ins & EI & H).
      apply Hid in H. rewrite EI in H. destruct H as [H | H]; [ | lia].
      rewrite app_assoc in Hnd. apply NoDup_remove_2 in Hnd. apply Hnd.
      rewrite in_app_iff. left. rewrite in_app_iff. right. exact H.
    - apply in_map_iff in H. destruct H as (Ins & EI & H).
      apply Hid2 in H. lia. }
  destruct (Hloop _ _ _ _ E2) as (Hdef & Hfresh & _).
  split; [exact Hdef | ]. split; [exact Hfresh | ]. split.
  { intros H. apply Hfresh. apply In_map_inst_id. apply Hdef. exact H. }
  assert (Hend : exists Xn mn stn,
             (if isValidCandidateInstruction X
              then for_each operandBody (seq 0 (getNumOperands X))
                            (X, m1, st1)
              else Returns (X, m1, st1)) = Returns (Xn, mn, stn)
             /\ ~ In (valueOf X) (IntegerVect stn)
             /\ SameShape X Xn).
  { destruct (isValidCandidateInstruction X).
    - destruct (operandLoop_InnerRel X m1 st1 (seq 0 (getNumOperands X)))
        as ([[Xn mn] stn] & En & _).
      destruct (Hloop _ _ _ _ En) as (Hd & Hf & HS).
      exists Xn, mn, stn. split; [exact En | ]. split; [ | exact HS].
      intros H. apply Hf. apply In_map_inst_id. apply Hd. exact H.
    - destruct (Hloop [] X m1 st1 eq_refl) as (Hd & Hf & HS).
      exists X, m1, st1. split; [reflexivity | ]. split; [ | exact HS].
      intros H. apply Hf. apply In_map_inst_id. apply Hd. exact H. }
  destruct Hend as (Xn & mn & stn & En & Hout & Hid' & _ & Hty & _).
  assert (Hval : valueOf Xn = valueOf X).
  { unfold valueOf. rewrite Hid', Hty. reflexivity. }
  exists Xn, mn, stn.
  exists (advance Xn
            {| IntegerVect :=
                 IntegerVect stn
                 ++ (if isIntegerTy (inst_ty X) then [valueOf X] else []);
               Generator := Generator stn; NextId := NextId stn;
               Before := Before stn |}).
  split.
  { destruct (isValidCandidateInstruction X); [ | exact En].
    rewrite (operandLoop_resume X m1 st1 i E2). exact En. }
  split; [exact Hout | ]. split.
  { unfold instBody. rewrite En. unfold registerInteger. rewrite Hval.
    simpl getType.
    destruct (isIntegerTy (inst_ty X)); [reflexivity | ].
    rewrite app_nil_r. destruct stn. reflexivity. }
  split; [reflexivity | ]. split; [reflexivity | ].
  intros Hint. simpl. rewrite Hint. apply in_or_app. right. left. reflexivity.
Qed.

(** C5 on the example, at the call of [replaceZero] for operand 1 of
    [%3 = sub i32 %1, 0]. *)
Lemma C5_witness :
  (forall v, In v (IntegerVect example_state_1) ->
             In v (map valueOf (Before example_state_1)))
  /\ ~ In (inst_id example_sub) (map inst_id (Before example_state_1))
  /\ ~ In (valueOf example_sub) (IntegerVect example_state_1)
  /\ exists Xn mn stn st3,
       (if isValidCandidateInstruction example_sub
        then for_each operandBody
                      (seq 1 (getNumOperands example_sub - 1))
                      (example_sub, false, example_state_1)
        else Returns (example_sub, false, example_state_1))
       = Returns (Xn, mn, stn)
       /\ ~ In (valueOf example_sub) (IntegerVect stn)
       /\ instBody example_sub (false, example_state_1) = Returns (mn, st3)
       /\ IntegerVect st3
          = IntegerVect stn
            ++ (if isIntegerTy (inst_ty example_sub)
                then [valueOf example_sub] else [])
       /\ Before st3 = Before stn ++ [Xn]
       /\ (isIntegerTy (inst_ty example_sub) = true ->
           In (valueOf example_sub) (IntegerVect st3)).
Proof.
  apply (@C5_pool_values_defined_before
           example_block example_state [example_add; example_gep]
           [example_store; example_vstore; example_ret] example_sub
           false example_state_1 1 example_sub false example_state_1).
  - simpl. repeat (apply NoDup_cons; [simpl; lia | ]). apply NoDup_nil.
  - intros Ins H. simpl in H.
    repeat (destruct H as [<- | H]; [simpl; lia | ]). destruct H.
  - reflexivity.
  - reflexivity.
  - reflexivity.
Defined.

(** C6 (as it holds).  After any number of visited instructions the
    vector holds exactly the values of the integer-typed instructions
    the walk has placed in the block so far (the visited ones and the
    inserted ones; a value may occur more than once); visiting one more
    instruction only appends to the vector; and every integer-typed
    value [replaceZero] creates is in the vector when it returns. *)
Theorem C6_pool_growth
        (BB : BasicBlock) (st : State) (pre post : list Instruction)
        (m1 : bool) (st1 : State) :
  snd (getFirstInsertionPt BB) = pre ++ post ->
  for_each instBody pre (false, enter BB st) = Returns (m1, st1) ->
  (exists placed,
      Before st1 = fst (getFirstInsertionPt BB) ++ placed
      /\ forall v, In v (IntegerVect st1) <-> In v (integerValues placed))
  /\ (forall X, exists m2 st2 added,
         instBody X (m1, st1) = Returns (m2, st2)
         /\ IntegerVect st2 = IntegerVect st1 ++ added
         /\ length (IntegerVect st1) <= length (IntegerVect st2))
  /\ (forall Inst C v st',
         replaceZero Inst C st1 = Returns (Some v, st') ->
         exists news added,
           Before st' = Before st1 ++ news
           /\ IntegerVect st' = IntegerVect st1 ++ added
           /\ forall x, In x (integerValues news) -> In x (IntegerVect st')).
Proof.
  intros _ E1.
  destruct (walk_WalkRel pre false (enter BB st))
    as (m1' & st1' & outs & E1' & (HB & _ & HS & _) & _).
  rewrite E1 in E1'. inversion E1'. subst m1' st1'. clear E1'.
  split; [ | split].
  - exists (assemble outs). split; [exact HB | ].
    intros v. rewrite HS. simpl. tauto.
  - intros X.
    destruct (instBody_InstRel X m1 st1)
      as (m2 & st2 & news & X' & E & (_ & (added & HA) & _) & _).
    exists m2, st2, added. split; [exact E | ]. split; [exact HA | ].
    rewrite HA, length_app. lia.
  - intros Inst C v st' E.
    destruct (IntegerVect st1) as [|v0 pool] eqn:EP.
    + rewrite (replaceZero_empty Inst C st1 EP) in E. discriminate.
    + destruct (@replaceZero_Grows Inst C st1)
        as (v1 & st2 & news & E2 & (HB2 & (added & HA) & HS2 & _) & _);
        [rewrite EP; discriminate | ].
      rewrite E2 in E. inversion E. subst v1 st2.
      exists news, added. split; [exact HB2 | ].
      split; [rewrite HA, EP; reflexivity | ].
      intros x Hx. apply HS2. right. exact Hx.
Qed.

(** C6 on the example, after the add and the getelementptr were visited. *)
Lemma C6_witness :
  (exists placed,
      Before example_state_1
      = fst (getFirstInsertionPt example_block) ++ placed
      /\ forall v, In v (IntegerVect example_state_1) <->
                   In v (integerValues placed))
  /\ (forall X, exists m2 st2 added,
         instBody X (false, example_state_1) = Returns (m2, st2)
         /\ IntegerVect st2 = IntegerVect example_state_1 ++ added
         /\ length (IntegerVect example_state_1) <= length (IntegerVect st2))
  /\ (forall Inst C v st',
         replaceZero Inst C example_state_1 = Returns (Some v, st') ->
         exists news added,
           Before st' = Before example_state_1 ++ news
           /\ IntegerVect st' = IntegerVect example_state_1 ++ added
           /\ forall x, In x (integerValues news) -> In x (IntegerVect st')).
Proof.
  apply (@C6_pool_growth
           example_block example_state [example_add; example_gep]
           [example_sub; example_store; example_vstore; example_ret]
           false example_state_1).
  - reflexivity.
  - reflexivity.
Defined.

(** C6 as stated fails: replacing the zeroinitializer operand of
    [example_vstore] creates a value of the operand's (non-integer)
    type, which [registerInteger] does not keep. *)
Lemma C6_counterexample :
  exists v st' news,
    replaceZero example_vstore ConstantAggregateZero example_state_1
    = Returns (Some v, st')
    /\ Before st' = Before example_state_1 ++ news
    /\ In v (map valueOf news)
    /\ ~ In v (IntegerVect st').
Proof.
  eexists _, _, _. split; [vm_compute; reflexivity | ].
  split; [reflexivity | ].
  split; [simpl; tauto | ].
  simpl. intros H.
  repeat (destruct H as [H | H]; [discriminate H | ]). exact H.
Qed.



(** C8. Replacing a zero operand keeps the identity, the kind, the
    result type and the operand count of the instruction; every operand
    is either the one it was or, where it was an eligible zero, a value
    the pass created, of exactly the type of that zero.  The value
    [replaceZero] returns always has the type of the constant it was
    given. *)
Theorem C8_replacement_preserves_shape :
  (forall Inst C st v st',
      replaceZero Inst C st = Returns (Some v, st') ->
      getType v = Constant_getType C)
  /\ (forall X i V,
         inst_ty (setOperand X i V) = inst_ty X
         /\ getNumOperands (setOperand X i V) = getNumOperands X
         /\ (forall j, j <> i ->
                       getOperand (setOperand X i V) j = getOperand X j))
  /\ (forall BB st,
         exists m st' outs,
           runOnBasicBlock BB st = Returns (m, st')
           /\ Before st' = fst (getFirstInsertionPt BB) ++ assemble outs
           /\ Forall2 Kept (snd (getFirstInsertionPt BB)) outs).
Proof.
  split; [ | split].
  - intros Inst C st v st' E.
    destruct (IntegerVect st) as [|v0 pool] eqn:EP.
    + rewrite (replaceZero_empty Inst C st EP) in E. discriminate.
    + destruct (@replaceZero_Grows Inst C st)
        as (v1 & st1 & n & E1 & _ & _ & _ & HT & _);
        [rewrite EP; discriminate | ].
      rewrite E1 in E. inversion E. subst. exact HT.
  - intros X i V. split; [reflexivity | ]. split.
    + unfold getNumOperands, setOperand. simpl. apply list_set_length.
    + intros j Hj. unfold getOperand, setOperand. simpl.
      apply list_set_other. exact Hj.
  - intros BB st.
    destruct (runOnBasicBlock_WalkRel BB st)
      as (m & st' & outs & E & (_ & HF & _) & HB).
    exists m, st', outs. auto.
Qed.

(** C8 on the example: the value replacing an [i32] zero is an [i32]. *)
Lemma C8_witness :
  exists v st',
    replaceZero example_sub (ConstantInt 32 0) example_state_1
    = Returns (Some v, st')
    /\ getType v = IntegerTy 32.
Proof.
  eexists _, _. split; [vm_compute; reflexivity | ].
  eapply (proj1 C8_replacement_preserves_shape
                example_sub (ConstantInt 32 0) example_state_1).
  vm_compute. reflexivity.
Defined.

(** C9. [runOnBasicBlock] returns on every block, and the flag it
    returns is true exactly when the operands of some visited
    instruction are no longer what they were. *)
Theorem C9_runOnBasicBlock_total (BB : BasicBlock) (st : State) :
  exists m st' outs,
    runOnBasicBlock BB st = Returns (m, st')
    /\ Before st' = fst (getFirstInsertionPt BB) ++ assemble outs
    /\ Forall2 Kept (snd (getFirstInsertionPt BB)) outs
    /\ (m = true <->
        Exists Overwritten (combine (snd (getFirstInsertionPt BB)) outs)).
Proof.
  destruct (runOnBasicBlock_WalkRel BB st)
    as (m & st' & outs & E & (_ & HF & _ & Hm) & HB).
  exists m, st', outs. repeat split; auto.
  - intros H. apply Hm in H. destruct H as [H | H]; [discriminate | exact H].
  - intros H. apply Hm. right. exact H.
Qed.



(** * Further properties *)

(** ** The shape of one replacement *)

Lemma small_constant_not_candidate (z : Z) :
  (0 < z < 4294967296)%Z ->
  isValidCandidateOperand (VConstant (ConstantInt 32 z)) = None.
Proof.
  intros H. unfold isValidCandidateOperand. simpl.
  replace (two_to 32) with 4294967296%Z by reflexivity.
  rewrite Z.mod_small by lia.
  destruct (Z.eqb_spec z 0); [lia | reflexivity].
Qed.

Ltac fed_operand :=
  first
    [ left; eexists; split;
      [ reflexivity
      | first [ reflexivity | apply small_constant_not_candidate; lia ] ]
    | right; simpl; rewrite ?in_app_iff; simpl;
      first
        [ pick_disj
        | match goal with
          | H : In _ (_ :: _) |- _ => solve [destruct H as [H | H]; pick_disj]
          end ] ].

Ltac fed :=
  split;
  [ first
      [ reflexivity
      | match goal with
        | H : _ = ZExt \/ _ = Trunc |- _ =>
            solve [destruct H as [-> | ->]; reflexivity]
        end ]
  | let V := fresh "V" in
    let HV := fresh "HV" in
    intros V HV; simpl in HV;
    repeat (destruct HV as [HV | HV]; [subst V; fed_operand | ]);
    contradiction ].

Lemma replaceZero_shape (Inst : Instruction) (C : Constant) (st : State) :
  IntegerVect st <> [] ->
  exists v st' news,
    replaceZero Inst C st = Returns (Some v, st')
    /\ Before st' = Before st ++ news
    /\ WellFed (IntegerVect st) news
    /\ 9 <= length news <= 12
    /\ NextId st' = NextId st + length news
    /\ length (IntegerVect st) + 11 <= length (IntegerVect st')
       <= length (IntegerVect st) + 12
    /\ (isIntegerTy (Constant_getType C) = true ->
        length (IntegerVect st') = length (IntegerVect st) + 12).
Proof.
  intros Hne. destruct st as [IV G N B]. simpl in Hne.
  destruct IV as [|v0 pool]; [congruence | clear Hne].
  unfold replaceZero. unfold bind at 1. unfold IntegerVect_size.
  cbn [IntegerVect].
  change (length (v0 :: pool) <? 1) with false. cbv iota zeta.
  do 4 step_draw.
  assert (HA1 : (2 <= Z.of_nat (1 + n1) <= 11)%Z) by lia.
  assert (HA2 : (2 <= Z.of_nat (1 + n2) <= 11)%Z) by lia.
  revert HA1 HA2.
  generalize (Z.of_nat (1 + n1)), (Z.of_nat (1 + n2)).
  intros any1 any2 HA1 HA2.
  unfold bind, registerInteger, CreateAnd, CreateOr, CreateMul, CreateICmpEQ,
    Insert, valueOf, ret.
  step_at (v0 :: pool). step_cast; step_at (v0 :: pool); step_cast; step_zext.
  all: eexists _, _, _; split; [reflexivity | ];
    cbn [Before IntegerVect NextId Generator].
  all: split; [rewrite <- ?app_assoc; reflexivity | ].
  all: split;
    [simpl; unfold valueOf; simpl; repeat (split; [fed | ]); exact I | ].
  all: split; [simpl; lia | ].
  all: split; [simpl; lia | ].
  all: split; [simpl; rewrite ?length_app; simpl; lia | ].
  all: intros HC; try (rewrite HC in HI; discriminate HI).
  all: simpl; rewrite ?length_app; simpl; lia.
Qed.

(** ** The types of one replacement *)

Lemma CreateZExtOrTrunc_i32_typed (V : Value) (st : State) :
  isIntegerTy (getType V) = true ->
  (CreateZExtOrTrunc V (IntegerTy 32) st = Returns (V, st)
   /\ getType V = IntegerTy 32)
  \/ (exists op,
         CreateZExtOrTrunc V (IntegerTy 32) st
         = Insert op (IntegerTy 32) [V] st
         /\ forall id,
              wellTyped {| inst_id := id; opcode := op;
                           inst_ty := IntegerTy 32; operands := [V] |}
              = true).
Proof.
  intros HV. unfold CreateZExtOrTrunc, CreateZExt, CreateTrunc.
  destruct (getType V) as [n| | | |] eqn:ET; try discriminate.
  unfold wellTyped. simpl. rewrite ET. simpl.
  destruct (N.ltb_spec n 32) as [L1 | L1].
  - destruct (N.eqb_spec n 32) as [-> | _]; [lia | ].
    right. exists ZExt. split; [reflexivity | ]. intros _. reflexivity.
  - destruct (N.ltb_spec 32 n) as [L2 | L2].
    + destruct (N.eqb_spec n 32) as [-> | _]; [lia | ].
      right. exists Trunc. split; [reflexivity | ]. intros _. reflexivity.
    + left. split; [reflexivity | ]. f_equal. lia.
Qed.

Ltac step_cast_typed Hint :=
  match goal with
  | Hin : In ?V _ |- context [CreateZExtOrTrunc ?V (IntegerTy 32) ?s] =>
      let HT := fresh "HT" in
      let op := fresh "op" in
      let HW := fresh "HW" in
      let E := fresh "E" in
      destruct (@CreateZExtOrTrunc_i32_typed V s (Hint V Hin))
        as [[E HT] | (op & E & HW)];
      rewrite E; clear E;
      [ simpl; rewrite ?HT; simpl | unfold Insert, valueOf; simpl ]
  end.

Lemma replaceZero_typed (Inst : Instruction) (C : Constant) (st : State) :
  IntegerVect st <> [] ->
  (forall v, In v (IntegerVect st) -> isIntegerTy (getType v) = true) ->
  exists v st' news,
    replaceZero Inst C st = Returns (Some v, st')
    /\ Before st' = Before st ++ news
    /\ (forall n, Constant_getType C = IntegerTy n -> (1 <= n)%N ->
        forallb wellTyped news = true)
    /\ (isIntegerTy (Constant_getType C) = false ->
        exists front cast,
          news = front ++ [cast]
          /\ forallb wellTyped front = true
          /\ opcode cast = ZExt
          /\ inst_ty cast = Constant_getType C
          /\ v = valueOf cast
          /\ wellTyped cast = false).
Proof.
  intros Hne Hint. destruct st as [IV G N B]. simpl in Hne, Hint.
  destruct IV as [|v0 pool]; [congruence | clear Hne].
  unfold replaceZero. unfold bind at 1. unfold IntegerVect_size.
  cbn [IntegerVect].
  change (length (v0 :: pool) <? 1) with false. cbv iota zeta.
  do 4 step_draw.
  generalize (Z.of_nat (1 + n1)), (Z.of_nat (1 + n2)).
  intros any1 any2.
  generalize dependent (Constant_getType C). intros T.
  unfold bind, registerInteger, CreateAnd, CreateOr, CreateMul, CreateICmpEQ,
    Insert, valueOf, ret.
  step_at (v0 :: pool). step_cast_typed Hint; step_at (v0 :: pool);
    step_cast_typed Hint; step_zext.
  all: eexists _, _, _; split; [reflexivity | ];
    cbn [Before IntegerVect NextId Generator].
  all: split; [rewrite <- ?app_assoc; reflexivity | ].
  all: cbn [app]; cbn [getType] in *.
  all: split.
  all: try (intros w HT' Hw; subst T; cbn [forallb];
            rewrite ?andb_true_iff; repeat split;
            first
              [ match goal with
                | HW : forall id, wellTyped _ = true |- _ => apply HW
                end
              | unfold wellTyped; simpl;
                repeat match goal with
                       | HT : getType _ = _ |- _ => rewrite HT
                       end;
                first [ reflexivity
                      | apply N.ltb_lt;
                        assert (w <> 1%N) by congruence; lia ] ]).
  all: intros HnI; try (subst T; discriminate HnI); try congruence.
  all: match goal with
       | |- exists front cast, ?news = _ /\ _ =>
           exists (removelast news), (last news Inst)
       end.
  all: cbn [removelast last].
  all: split; [reflexivity | ].
  all: split;
    [ cbn [forallb]; rewrite ?andb_true_iff; repeat split;
      first
        [ match goal with
          | HW : forall id, wellTyped _ = true |- _ => apply HW
          end
        | unfold wellTyped; simpl;
          repeat match goal with
                 | HT : getType _ = _ |- _ => rewrite HT
                 end;
          reflexivity ]
    | ].
  all: split; [reflexivity | ].
  all: split; [reflexivity | ].
  all: split; [reflexivity | ].
  all: unfold wellTyped; simpl; destruct T; try discriminate; reflexivity.
Qed.

(** ** Feeding *)

Lemma Fed_mono (a1 a2 : list Value) (Ins : Instruction) :
  incl a1 a2 -> Fed a1 Ins -> Fed a2 Ins.
Proof.
  intros Hi [HA HV]. split; [exact HA | ].
  intros V H. destruct (HV V H) as [HC | Hin]; [left; exact HC | right].
  apply Hi. exact Hin.
Qed.

Lemma WellFed_mono (l : list Instruction) (a1 a2 : list Value) :
  incl a1 a2 -> WellFed a1 l -> WellFed a2 l.
Proof.
  revert a1 a2. induction l as [|Ins l IH]; intros a1 a2 Hi; simpl; auto.
  intros [HF HW]. split; [eapply Fed_mono; eassumption | ].
  eapply IH; [ | exact HW]. apply incl_app_app; [exact Hi | apply incl_refl].
Qed.

Lemma WellFed_app (l1 l2 : list Instruction) (a : list Value) :
  WellFed a (l1 ++ l2) <->
  WellFed a l1 /\ WellFed (a ++ map valueOf l1) l2.
Proof.
  revert a. induction l1 as [|Ins l1 IH]; intros a; simpl.
  - rewrite app_nil_r. tauto.
  - rewrite IH, <- app_assoc. simpl. tauto.
Qed.

Lemma WellFed_settled (l : list Instruction) (a : list Value) :
  (forall v, In v a -> isValidCandidateOperand v = None) ->
  WellFed a l -> Forall Settled l.
Proof.
  revert a. induction l as [|Ins l IH]; intros a Ha; simpl; [constructor | ].
  intros [[_ HV] HW]. constructor.
  - intros V H. destruct (HV V H) as [(C & _ & HC) | Hin]; auto.
  - apply (IH (a ++ [valueOf Ins])); [ | exact HW].
    intros v Hv. apply in_app_or in Hv. destruct Hv as [Hv | [<- | []]]; auto.
Qed.

Lemma InsertedFed_of_WellFed (N0 : nat) (l : list Instruction)
      (a : list Value) :
  WellFed a l -> InsertedFed N0 a l.
Proof.
  revert a. induction l as [|Ins l IH]; intros a; simpl; auto.
  intros [HF HW]. split; auto.
Qed.

Lemma InsertedFed_app (N0 : nat) (l1 l2 : list Instruction) (a : list Value) :
  InsertedFed N0 a (l1 ++ l2) <->
  InsertedFed N0 a l1 /\ InsertedFed N0 (a ++ map valueOf l1) l2.
Proof.
  revert a. induction l1 as [|Ins l1 IH]; intros a; simpl.
  - rewrite app_nil_r. tauto.
  - rewrite IH, <- app_assoc. simpl. tauto.
Qed.

Lemma InsertedFed_mono (N0 : nat) (l : list Instruction) (a1 a2 : list Value) :
  incl a1 a2 -> InsertedFed N0 a1 l -> InsertedFed N0 a2 l.
Proof.
  revert a1 a2. induction l as [|Ins l IH]; intros a1 a2 Hi; simpl; auto.
  intros [HF HW]. split.
  - intros H. eapply Fed_mono; [exact Hi | auto].
  - eapply IH; [ | exact HW]. apply incl_app_app; [exact Hi | apply incl_refl].
Qed.

Lemma SettledAfter_app (l1 l2 : list Instruction) (b : bool) :
  SettledAfter b (l1 ++ l2) <->
  SettledAfter b l1
  /\ SettledAfter (b || existsb (fun Ins => isIntegerTy (inst_ty Ins)) l1) l2.
Proof.
  revert b. induction l1 as [|Ins l1 IH]; intros b; simpl.
  - rewrite orb_false_r. tauto.
  - rewrite IH, orb_assoc. tauto.
Qed.

Lemma SettledAfter_all (l : list Instruction) (b : bool) :
  Forall Settled l -> SettledAfter b l.
Proof.
  intros H. revert b. induction H as [|Ins l HS _ IH]; intros b; simpl; auto.
Qed.

Lemma created_not_candidate (l : list Instruction) (v : Value) :
  In v (map valueOf l) -> isValidCandidateOperand v = None.
Proof.
  rewrite in_map_iff. intros (Ins & <- & _). reflexivity.
Qed.

(** ** The operand loop, counted *)

Lemma InnerShape_start (X : Instruction) (m : bool) (st : State) :
  InnerShape X m st (X, m, st).
Proof.
  exists [], 0. rewrite !app_nil_r. simpl.
  split; [reflexivity | ]. split; [exact I | ].
  split; [apply incl_refl | ]. split; [lia | ]. split; [lia | ].
  split; [lia | ].
  split; [split; [auto | intros [H | H]; [exact H | lia]] | ].
  split; [auto | ]. repeat split.
Qed.

Lemma operandBody_InnerShape (X : Instruction) (m : bool) (st : State)
      (i : nat) (s1 : Instruction * bool * State) :
  InnerShape X m st s1 ->
  exists s2, operandBody i s1 = Returns s2 /\ InnerShape X m st s2.
Proof.
  destruct s1 as [[X1 m1] st1]. intros H1.
  unfold operandBody.
  destruct (getOperand X1 i) as [V|] eqn:EV;
    [ | eexists; split; [reflexivity | exact H1] ].
  destruct (isValidCandidateOperand V) as [C|] eqn:EC;
    [ | eexists; split; [reflexivity | exact H1] ].
  destruct (IntegerVect st1) as [|v0 pool] eqn:EP.
  - rewrite (replaceZero_empty X1 C st1 EP).
    eexists; split; [reflexivity | exact H1].
  - assert (Hne : IntegerVect st1 <> []) by (rewrite EP; discriminate).
    destruct (@replaceZero_shape X1 C st1 Hne)
      as (v & st2 & n2 & E & HB2 & HW2 & HL2 & HN2 & HP2 & _).
    destruct (@replaceZero_Grows X1 C st1 Hne)
      as (v' & st2' & n2' & E' & (HB2' & _ & HS2 & _) & _).
    rewrite E in E'. inversion E'. subst v' st2'. clear E'.
    rewrite HB2 in HB2'. apply app_inv_head in HB2'. subst n2'.
    rewrite E. eexists; split; [reflexivity | ].
    destruct H1 as (news & k & HB & HW & HI & HL & HN & HP & Hm & _ & HS).
    exists (news ++ n2), (S k).
    rewrite EP in *.
    rewrite !length_app.
    split; [rewrite HB2, HB, app_assoc; reflexivity | ].
    split.
    { apply WellFed_app. split; [exact HW | ].
      eapply WellFed_mono; [ | exact HW2]. exact HI. }
    split.
    { intros x Hx. apply HS2 in Hx. rewrite map_app, app_assoc.
      apply in_or_app. destruct Hx as [Hx | Hx].
      - left. apply HI. exact Hx.
      - right. apply integerValues_incl. exact Hx. }
    split; [lia | ]. split; [lia | ]. split; [simpl in *; lia | ].
    split; [split; [intros _; right; lia | reflexivity] | ].
    split; [discriminate | ].
    destruct HS as (S1 & S2 & S3 & S4). repeat split; auto.
    unfold getNumOperands, setOperand in *. simpl.
    rewrite list_set_length. exact S4.
Qed.

Lemma operandLoop_InnerShape (X : Instruction) (m : bool) (st : State)
      (l : list nat) :
  exists s, for_each operandBody l (X, m, st) = Returns s
            /\ InnerShape X m st s.
Proof.
  apply for_each_invariant.
  - apply InnerShape_start.
  - intros i s1 _ H. apply operandBody_InnerShape. exact H.
Qed.

(** ** Every eligible zero is replaced once the vector is not empty *)

Lemma operandBody_settles (i : nat) (X1 : Instruction) (m1 : bool)
      (st1 : State) :
  IntegerVect st1 <> [] ->
  exists X2 m2 st2,
    operandBody i (X1, m1, st1) = Returns (X2, m2, st2)
    /\ IntegerVect st2 <> []
    /\ (forall V, getOperand X2 i = Some V -> isValidCandidateOperand V = None)
    /\ (forall j, j <> i -> getOperand X2 j = getOperand X1 j).
Proof.
  intros Hne. unfold operandBody.
  destruct (getOperand X1 i) as [V|] eqn:EV.
  - destruct (isValidCandidateOperand V) as [C|] eqn:EC.
    + destruct (@replaceZero_Grows X1 C st1 Hne)
        as (v & st2 & n2 & E & (_ & (added & HA) & _) & _ & Hv & _).
      rewrite E. exists (setOperand X1 i v), true, st2.
      split; [reflexivity | ]. split.
      { rewrite HA. intros H. apply app_eq_nil in H. tauto. }
      assert (Hi : i < length (operands X1)).
      { apply nth_error_Some. unfold getOperand in EV. rewrite EV.
        discriminate. }
      split.
      * intros V' HV'. unfold getOperand, setOperand in HV'. simpl in HV'.
        rewrite (list_set_same _ _ Hi) in HV'. inversion HV'. subst V'.
        eapply created_not_candidate. exact Hv.
      * intros j Hj. unfold getOperand, setOperand. simpl.
        apply list_set_other. exact Hj.
    + exists X1, m1, st1. split; [reflexivity | ]. split; [exact Hne | ].
      split; [ | reflexivity]. intros V' HV'. congruence.
  - exists X1, m1, st1. split; [reflexivity | ]. split; [exact Hne | ].
    split; [ | reflexivity]. intros V' HV'. congruence.
Qed.

Lemma operandLoop_settles (len start : nat) (X1 : Instruction) (m1 : bool)
      (st1 : State) :
  IntegerVect st1 <> [] ->
  exists X2 m2 st2,
    for_each operandBody (seq start len) (X1, m1, st1) = Returns (X2, m2, st2)
    /\ (forall j V, start <= j < start + len -> getOperand X2 j = Some V ->
                    isValidCandidateOperand V = None)
    /\ (forall j, j < start \/ start + len <= j ->
                  getOperand X2 j = getOperand X1 j).
Proof.
  revert start X1 m1 st1. induction len as [|len IH];
    intros start X1 m1 st1 Hne.
  - exists X1, m1, st1. split; [reflexivity | ]. split; [intros; lia | auto].
  - destruct (@operandBody_settles start X1 m1 st1 Hne)
      as (X2 & m2 & st2 & E & Hne2 & Hi & Ho).
    destruct (IH (S start) X2 m2 st2 Hne2) as (X3 & m3 & st3 & E3 & Hin & Hout).
    exists X3, m3, st3. cbn [seq for_each]. rewrite E.
    split; [exact E3 | ]. split.
    + intros j V Hj HV. destruct (Nat.eq_dec j start) as [-> | Hjs].
      * rewrite Hout in HV by lia. eapply Hi. exact HV.
      * eapply Hin; [ | exact HV]. lia.
    + intros j Hj. rewrite Hout by lia. apply Ho. lia.
Qed.

Lemma operandLoop_Settled (X : Instruction) (m : bool) (st : State) :
  IntegerVect st <> [] ->
  exists X' m' st',
    for_each operandBody (seq 0 (getNumOperands X)) (X, m, st)
    = Returns (X', m', st')
    /\ Settled X'.
Proof.
  intros Hne.
  destruct (@operandLoop_settles (getNumOperands X) 0 X m st Hne)
    as (X' & m' & st' & E & Hin & Hout).
  exists X', m', st'. split; [exact E | ].
  intros V HV. apply In_nth_error in HV. destruct HV as [j Hj].
  destruct (Nat.lt_ge_cases j (getNumOperands X)) as [Hlt | Hge].
  - apply (Hin j V); [lia | exact Hj].
  - unfold getOperand in Hout. rewrite Hout in Hj by lia.
    apply nth_error_None in Hge. unfold getNumOperands in Hge.
    rewrite Hge in Hj. discriminate.
Qed.

Lemma operandLoop_no_candidate (X : Instruction) (m : bool) (st : State)
      (l : list nat) :
  Settled X -> for_each operandBody l (X, m, st) = Returns (X, m, st).
Proof.
  intros HS. induction l as [|i l IH]; cbn [for_each]; [reflexivity | ].
  assert (E : operandBody i (X, m, st) = Returns (X, m, st)).
  { unfold operandBody. destruct (getOperand X i) as [V|] eqn:EV; auto.
    rewrite (HS V); [reflexivity | ].
    eapply nth_error_In. exact EV. }
  rewrite E. exact IH.
Qed.

(** ** One visit, counted *)

(** What visiting [X] from [(m, st)] leaves, after [k] replacements. *)
Lemma instBody_shape (X : Instruction) (m : bool) (st : State) :
  exists m' st' news X' k,
    instBody X (m, st) = Returns (m', st')
    /\ Before st' = Before st ++ news ++ [X']
    /\ WellFed (IntegerVect st) news
    /\ incl (IntegerVect st')
            (IntegerVect st ++ map valueOf (news ++ [X']))
    /\ 9 * k <= length news <= 12 * k
    /\ NextId st' = NextId st + length news
    /\ length (IntegerVect st) + 11 * k
         + (if isIntegerTy (inst_ty X) then 1 else 0)
       <= length (IntegerVect st')
       <= length (IntegerVect st) + 12 * k
          + (if isIntegerTy (inst_ty X) then 1 else 0)
    /\ (m' = true <-> m = true \/ 0 < k)
    /\ (k = 0 -> X' = X /\ news = [])
    /\ SameShape X X'
    /\ (IntegerVect st = [] -> k = 0)
    /\ (IntegerVect st <> [] -> isValidCandidateInstruction X = true ->
        Settled X').
Proof.
  unfold instBody.
  assert (H : exists s,
             (if isValidCandidateInstruction X
              then for_each operandBody (seq 0 (getNumOperands X)) (X, m, st)
              else Returns (X, m, st)) = Returns s
             /\ InnerShape X m st s
             /\ (IntegerVect st = [] -> s = (X, m, st))
             /\ (IntegerVect st <> [] ->
                 isValidCandidateInstruction X = true ->
                 Settled (fst (fst s)))).
  { destruct (isValidCandidateInstruction X).
    - destruct (operandLoop_InnerShape X m st (seq 0 (getNumOperands X)))
        as (s & E & H).
      exists s. split; [exact E | ]. split; [exact H | ]. split.
      + intros HE. rewrite (operandLoop_empty X m st _ HE) in E.
        inversion E. reflexivity.
      + intros Hne _.
        destruct (@operandLoop_Settled X m st Hne) as (X' & m' & st' & E' & HS).
        rewrite E in E'. inversion E'. exact HS.
    - exists (X, m, st). split; [reflexivity | ].
      split; [apply InnerShape_start | ]. split; [reflexivity | ].
      intros _ H. discriminate. }
  destruct H as ([[X1 m1] st1] & -> & HI & Hempty & Hset).
  destruct HI as (news & k & HB & HW & HIn & HL & HN & HP & Hm & Hk & HS).
  assert (Hty : inst_ty X1 = inst_ty X) by apply HS.
  unfold registerInteger. simpl getType. rewrite Hty.
  exists m1.
  destruct (isIntegerTy (inst_ty X)) eqn:EI; eexists; exists news, X1, k;
    (split; [reflexivity | ]); unfold advance; simpl;
    (split; [rewrite HB, <- app_assoc; reflexivity | ]);
    (split; [exact HW | ]).
  - split.
    { intros x Hx. apply in_app_or in Hx. rewrite map_app, app_assoc.
      apply in_or_app. destruct Hx as [Hx | Hx]; [left; auto | right; exact Hx]. }
    rewrite length_app. simpl.
    split; [exact HL | ]. split; [exact HN | ]. split; [lia | ].
    split; [exact Hm | ].
    split.
    { intros K. destruct (Hk K) as [-> _]. split; [reflexivity | ].
      apply length_zero_iff_nil. lia. }
    split; [exact HS | ]. split.
    { intros HE0. specialize (Hempty HE0). inversion Hempty. subst.
      destruct k; [reflexivity | ]. rewrite HE0 in HP. simpl in HP. lia. }
    exact Hset.
  - split.
    { intros x Hx. rewrite map_app, app_assoc.
      apply in_or_app. left. auto. }
    split; [exact HL | ]. split; [exact HN | ]. split; [lia | ].
    split; [exact Hm | ].
    split.
    { intros K. destruct (Hk K) as [-> _]. split; [reflexivity | ].
      apply length_zero_iff_nil. lia. }
    split; [exact HS | ]. split.
    { intros HE0. specialize (Hempty HE0). inversion Hempty. subst.
      destruct k; [reflexivity | ]. rewrite HE0 in HP. simpl in HP. lia. }
    exact Hset.
Qed.

(** ** Visits that replace nothing *)

Lemma instBody_kept (X : Instruction) (m : bool) (st : State) :
  IntegerVect st = [] \/ isValidCandidateInstruction X = false \/ Settled X ->
  instBody X (m, st) = Returns (m, visitKept X st).
Proof.
  intros H. unfold instBody.
  assert (E : (if isValidCandidateInstruction X
               then for_each operandBody (seq 0 (getNumOperands X)) (X, m, st)
               else Returns (X, m, st)) = Returns (X, m, st)).
  { destruct (isValidCandidateInstruction X); [ | reflexivity].
    destruct H as [H | [H | H]].
    - apply operandLoop_empty. exact H.
    - discriminate.
    - apply operandLoop_no_candidate. exact H. }
  rewrite E. unfold registerInteger, visitKept, advance. simpl.
  destruct (isIntegerTy (inst_ty X)); reflexivity.
Qed.

Lemma walk_no_integer (pre : list Instruction) (m : bool) (st : State) :
  IntegerVect st = [] ->
  existsb isIntegerInst pre = false ->
  for_each instBody pre (m, st)
  = Returns (m, {| IntegerVect := []; Generator := Generator st;
                   NextId := NextId st; Before := Before st ++ pre |}).
Proof.
  revert st. induction pre as [|X pre IH]; intros st HE Hno.
  - simpl. rewrite app_nil_r. destruct st. simpl in HE. subst. reflexivity.
  - simpl in Hno. apply orb_false_elim in Hno. destruct Hno as [HX Hpre].
    cbn [for_each]. rewrite instBody_kept by (left; exact HE).
    assert (HK : IntegerVect (visitKept X st) = []).
    { unfold visitKept. unfold isIntegerInst in HX. simpl. rewrite HX.
      exact HE. }
    rewrite (IH (visitKept X st) HK Hpre). unfold visitKept. simpl.
    rewrite <- app_assoc. reflexivity.
Qed.

Lemma walk_settled (l : list Instruction) (b : bool) (t : State) (m : bool) :
  SettledAfter b l ->
  (b = false -> IntegerVect t = []) ->
  exists t',
    for_each instBody l (m, t) = Returns (m, t')
    /\ Before t' = Before t ++ l
    /\ Generator t' = Generator t
    /\ NextId t' = NextId t.
Proof.
  revert b t. induction l as [|X l IH]; intros b t HS Hb.
  - exists t. rewrite app_nil_r. auto.
  - destruct HS as [HX HS].
    assert (HK : instBody X (m, t) = Returns (m, visitKept X t)).
    { apply instBody_kept. destruct b.
      - destruct (isValidCandidateInstruction X) eqn:EX; auto.
      - left. auto. }
    destruct (IH (b || isIntegerTy (inst_ty X)) (visitKept X t) HS)
      as (t' & E & HB & HG & HN).
    { intros Hor. apply orb_false_elim in Hor. destruct Hor as [-> HI].
      unfold visitKept. simpl. rewrite HI. auto. }
    exists t'. cbn [for_each]. rewrite HK.
    split; [exact E | ]. split; [ | auto].
    rewrite HB. unfold visitKept. simpl. rewrite <- app_assoc. reflexivity.
Qed.

(** ** What every state of the walk satisfies *)

Lemma instBody_WalkSettled (prefix : list Instruction) (X : Instruction)
      (m : bool) (st : State) :
  WalkSettled prefix st ->
  exists s, instBody X (m, st) = Returns s /\ WalkSettled prefix (snd s).
Proof.
  intros (placed & HB & HD & HI & HS).
  destruct (instBody_shape X m st)
    as (m1 & st1 & news & X1 & k & E & HB1 & HW & HIn & HL & _ & HP
        & _ & Hk & HSh & Hk0 & Hset).
  exists (m1, st1). split; [exact E | ]. simpl.
  exists (placed ++ news ++ [X1]).
  split; [rewrite HB1, HB, <- app_assoc; reflexivity | ].
  split.
  { intros v Hv. apply HIn in Hv. rewrite map_app, in_app_iff.
    apply in_app_or in Hv. destruct Hv as [Hv | Hv]; auto. }
  assert (Hnews : Forall Settled news).
  { apply (WellFed_settled _ (IntegerVect st)); [ | exact HW].
    intros v Hv. eapply created_not_candidate. apply HD. exact Hv. }
  destruct HSh as (_ & Hop & Hty & _).
  split.
  { rewrite !existsb_app. simpl. rewrite orb_false_r.
    unfold isIntegerInst at 3. rewrite Hty.
    intros H. intros HE. rewrite HE in HP. simpl in HP.
    destruct (isIntegerTy (inst_ty X)); [lia | ].
    rewrite orb_false_r in H. apply orb_true_elim in H.
    destruct H as [H | H].
    - apply HI in H. destruct (IntegerVect st) eqn:EP; [congruence | ].
      simpl in HP. lia.
    - destruct k.
      + destruct (Hk eq_refl) as (_ & ->). discriminate.
      + lia. }
  apply SettledAfter_app. split; [exact HS | ].
  apply SettledAfter_app. split; [apply SettledAfter_all; exact Hnews | ].
  simpl. split; [ | exact I].
  intros Hseen Hel. apply Hset.
  - intros HE. specialize (Hk0 HE). subst k.
    destruct (Hk eq_refl) as (_ & ->). simpl in Hseen.
    rewrite orb_false_r in Hseen. apply HI in Hseen. congruence.
  - unfold isValidCandidateInstruction in *. rewrite <- Hop. exact Hel.
Qed.

Lemma walk_WalkSettled (prefix l : list Instruction) (m : bool) (st : State) :
  WalkSettled prefix st ->
  exists m' st',
    for_each instBody l (m, st) = Returns (m', st')
    /\ WalkSettled prefix st'.
Proof.
  intros H.
  destruct (@for_each_invariant _ _ instBody
              (fun s => WalkSettled prefix (snd s)) l (m, st) H)
    as ([m' st'] & E & H').
  - intros X [m1 st1] _ H1. apply instBody_WalkSettled. exact H1.
  - exists m', st'. auto.
Qed.

Lemma instBody_WalkFed (N0 : nat) (X : Instruction) (m : bool) (st : State) :
  inst_id X < N0 ->
  WalkFed N0 st ->
  exists s, instBody X (m, st) = Returns s /\ WalkFed N0 (snd s).
Proof.
  intros HX (HD & HF).
  destruct (instBody_shape X m st)
    as (m1 & st1 & news & X1 & k & E & HB1 & HW & HIn & _ & _ & _
        & _ & _ & HSh & _).
  exists (m1, st1). split; [exact E | ]. simpl. split.
  - intros v Hv. apply HIn in Hv. rewrite HB1, map_app, in_app_iff.
    apply in_app_or in Hv. destruct Hv as [Hv | Hv]; auto.
  - rewrite HB1. apply InsertedFed_app. split; [exact HF | ].
    apply InsertedFed_app. split.
    + apply InsertedFed_of_WellFed.
      eapply WellFed_mono; [ | exact HW]. exact HD.
    + simpl. split; [ | exact I]. intros H.
      destruct HSh as (Hid & _). lia.
Qed.

Lemma walk_WalkFed (N0 : nat) (l : list Instruction) (m : bool) (st : State) :
  (forall X, In X l -> inst_id X < N0) ->
  WalkFed N0 st ->
  exists m' st',
    for_each instBody l (m, st) = Returns (m', st') /\ WalkFed N0 st'.
Proof.
  intros Hl H.
  destruct (@for_each_invariant _ _ instBody
              (fun s => WalkFed N0 (snd s)) l (m, st) H)
    as ([m' st'] & E & H').
  - intros X [m1 st1] HX H1. apply instBody_WalkFed; auto.
  - exists m', st'. auto.
Qed.

Lemma InsertedFed_at (N0 : nat) (l1 l2 : list Instruction)
      (Ins : Instruction) :
  InsertedFed N0 [] (l1 ++ Ins :: l2) ->
  N0 <= inst_id Ins -> Fed (map valueOf l1) Ins.
Proof.
  intros H. apply InsertedFed_app in H. destruct H as [_ [H _]]. exact H.
Qed.

Lemma SettledAfter_at (l1 l2 : list Instruction) (X : Instruction) :
  SettledAfter false (l1 ++ X :: l2) ->
  existsb isIntegerInst l1 = true ->
  isValidCandidateInstruction X = true -> Settled X.
Proof.
  intros H. apply SettledAfter_app in H. destruct H as [_ [H _]]. exact H.
Qed.

(** ** Walking the block the pass has left *)

Lemma getFirstNonPHI_exact (phis r : BasicBlock) :
  Forall (fun P => isa_PHINode P = true) phis ->
  match r with [] => True | P :: _ => isa_PHINode P = false end ->
  getFirstNonPHI (phis ++ r) = (phis, r).
Proof.
  intros H Hr. induction H as [|P phis HP _ IH]; simpl.
  - destruct r as [|P r]; [reflexivity | ]. simpl. rewrite Hr. reflexivity.
  - rewrite HP, IH. reflexivity.
Qed.

Lemma getFirstNonPHI_spec (BB : BasicBlock) :
  Forall (fun P => isa_PHINode P = true) (fst (getFirstNonPHI BB))
  /\ match snd (getFirstNonPHI BB) with
     | [] => True
     | P :: _ => isa_PHINode P = false
     end.
Proof.
  induction BB as [|P BB IH]; simpl; [split; [constructor | exact I] | ].
  destruct (isa_PHINode P) eqn:EP.
  - destruct (getFirstNonPHI BB) as [phis r]. simpl in *.
    destruct IH as [H1 H2]. split; [constructor; assumption | exact H2].
  - simpl. split; [constructor | exact EP].
Qed.

Lemma isEHPad_not_PHI (P : Instruction) :
  isEHPad P = true -> isa_PHINode P = false.
Proof.
  unfold isEHPad, isa_PHINode. destruct (opcode P); auto; discriminate.
Qed.

Lemma getFirstInsertionPt_again (BB l : BasicBlock) :
  hd_error l = hd_error (snd (getFirstInsertionPt BB)) ->
  getFirstInsertionPt (fst (getFirstInsertionPt BB) ++ l)
  = (fst (getFirstInsertionPt BB), l).
Proof.
  unfold getFirstInsertionPt at 1 3 4.
  destruct (getFirstNonPHI_spec BB) as [Hphis Hr].
  destruct (getFirstNonPHI BB) as [phis r]. simpl in Hphis, Hr.
  destruct r as [|P r].
  - simpl. intros Hl. destruct l as [|Y l]; [ | discriminate].
    unfold getFirstInsertionPt.
    rewrite (getFirstNonPHI_exact [] Hphis I). reflexivity.
  - destruct (isEHPad P) eqn:EP; simpl; intros Hl.
    + unfold getFirstInsertionPt. rewrite <- app_assoc. simpl.
      rewrite (getFirstNonPHI_exact (P :: l) Hphis)
        by (apply isEHPad_not_PHI; exact EP).
      rewrite EP. reflexivity.
    + destruct l as [|Y l]; [discriminate | ]. inversion Hl. subst Y.
      unfold getFirstInsertionPt.
      rewrite (getFirstNonPHI_exact (P :: l) Hphis) by exact Hr.
      rewrite EP. reflexivity.
Qed.

Lemma WalkSettled_enter (BB : BasicBlock) (st : State) :
  WalkSettled (fst (getFirstInsertionPt BB)) (enter BB st).
Proof.
  exists []. simpl. rewrite app_nil_r.
  split; [reflexivity | ]. split; [intros v [] | ].
  split; [discriminate | exact I].
Qed.

(** The walk of a block, seen from the block it leaves. *)
Lemma runOnBasicBlock_settled (BB : BasicBlock) (st : State) :
  exists m st' placed,
    runOnBasicBlock BB st = Returns (m, st')
    /\ Before st' = fst (getFirstInsertionPt BB) ++ placed
    /\ SettledAfter false placed
    /\ hd_error placed = hd_error (snd (getFirstInsertionPt BB)).
Proof.
  unfold runOnBasicBlock.
  destruct (@walk_WalkSettled (fst (getFirstInsertionPt BB))
              (snd (getFirstInsertionPt BB)) false (enter BB st)
              (WalkSettled_enter BB st))
    as (m & st' & E & placed & HB & _ & _ & HS).
  exists m, st', placed. split; [exact E | ]. split; [exact HB | ].
  split; [exact HS | ].
  destruct (snd (getFirstInsertionPt BB)) as [|X rest] eqn:EV.
  - simpl in E. inversion E. subst st'. simpl in HB.
    rewrite <- (app_nil_r (fst (getFirstInsertionPt BB))) in HB at 1.
    apply app_inv_head in HB. subst placed. reflexivity.
  - cbn [for_each] in E.
    rewrite (@instBody_kept X false (enter BB st)) in E by (left; reflexivity).
    destruct (walk_WalkRel rest false (visitKept X (enter BB st)))
      as (m3 & st3 & outs & E3 & (HB3 & _) & _).
    rewrite E in E3. inversion E3. subst m3 st3.
    rewrite HB in HB3. unfold visitKept in HB3. simpl in HB3.
    rewrite <- app_assoc in HB3. apply app_inv_head in HB3.
    subst placed. reflexivity.
Qed.

(** ** The replacements of a walk, counted *)

Lemma nth_error_skipn_cons {A} (l : list A) (i : nat) (x : A) :
  nth_error l i = Some x -> skipn i l = x :: skipn (S i) l.
Proof.
  revert l. induction i as [|i IH]; intros [|y l] H; try discriminate.
  - simpl in *. congruence.
  - simpl in H. rewrite skipn_cons. rewrite (IH l H). reflexivity.
Qed.

Lemma skipn_list_set {A} (l : list A) (i : nat) (x : A) :
  skipn (S i) (list_set l i x) = skipn (S i) l.
Proof.
  revert i. induction l as [|y l IH]; intros [|i]; try reflexivity.
  simpl list_set. rewrite !skipn_cons. apply IH.
Qed.

Lemma skipn_list_set_after {A} (l : list A) (i j : nat) (x : A) :
  i < j -> skipn j (list_set l i x) = skipn j l.
Proof.
  intros H. replace j with ((j - S i) + S i) by lia.
  rewrite <- !skipn_skipn, skipn_list_set. reflexivity.
Qed.

Lemma candidates_Settled (X : Instruction) :
  candidates X = 0 <-> Settled X.
Proof.
  unfold candidates, Settled, isCandidate.
  induction (operands X) as [|V l IH]; simpl.
  - split; [intros _ V [] | reflexivity].
  - destruct (isValidCandidateOperand V) as [C|] eqn:E; simpl.
    + split; [discriminate | ]. intros H.
      specialize (H V (or_introl eq_refl)). congruence.
    + rewrite IH. split.
      * intros H V' [<- | HV]; auto.
      * intros H V' HV. apply H. right. exact HV.
Qed.

Lemma replacements_SettledAfter (b : bool) (l : list Instruction) :
  replacements b l = 0 <-> SettledAfter b l.
Proof.
  revert b. induction l as [|X l IH]; intros b; simpl.
  - tauto.
  - rewrite <- IH. unfold isIntegerInst.
    destruct b, (isValidCandidateInstruction X); simpl;
      rewrite <- ?candidates_Settled; split; intros H;
      try (split; [ | lia]); try lia;
      try (intros; lia); try discriminate; try congruence.
    all: destruct H as [H1 H2]; try specialize (H1 eq_refl eq_refl); lia.
Qed.

Lemma operandLoop_counted (len start : nat) (X : Instruction) (m : bool)
      (st : State) :
  IntegerVect st <> [] ->
  exists X' m' st',
    for_each operandBody (seq start len) (X, m, st) = Returns (X', m', st')
    /\ NextId st
         + 9 * length (filter isCandidate
                              (firstn len (skipn start (operands X))))
       <= NextId st'
       <= NextId st
          + 12 * length (filter isCandidate
                                (firstn len (skipn start (operands X))))
    /\ (m' = true <->
        m = true
        \/ 0 < length (filter isCandidate
                              (firstn len (skipn start (operands X))))).
Proof.
  revert start X m st.
  induction len as [|len IH]; intros start X m st Hne.
  - exists X, m, st. split; [reflexivity | ]. simpl.
    split; [lia | ]. split; [auto | intros [H | H]; [exact H | lia]].
  - cbn [seq for_each]. unfold operandBody at 1.
    destruct (getOperand X start) as [V|] eqn:EV.
    + unfold getOperand in EV. rewrite (nth_error_skipn_cons _ _ EV).
      cbn [firstn filter].
      assert (HV : isCandidate V
                   = match isValidCandidateOperand V with
                     | Some _ => true | None => false end) by reflexivity.
      destruct (isValidCandidateOperand V) as [C|] eqn:EC; rewrite HV.
      * destruct (@replaceZero_shape X C st Hne)
          as (v & st1 & news & E & _ & _ & HL & HN & HP & _).
        rewrite E.
        assert (Hne1 : IntegerVect st1 <> []).
        { intros H0. rewrite H0 in HP. simpl in HP. lia. }
        destruct (IH (S start) (setOperand X start v) true st1 Hne1)
          as (X' & m' & st' & E' & HC & Hm).
        exists X', m', st'. split; [exact E' | ].
        unfold setOperand in HC, Hm. cbn [operands] in HC, Hm.
        rewrite skipn_list_set in HC, Hm. cbn [length].
        split; [lia | ]. split; [intros _; right; lia | ].
        intros _. apply Hm. left. reflexivity.
      * destruct (IH (S start) X m st Hne) as (X' & m' & st' & E' & HC).
        exists X', m', st'. split; [exact E' | exact HC].
    + destruct (IH (S start) X m st Hne) as (X' & m' & st' & E' & HC).
      exists X', m', st'. split; [exact E' | ].
      unfold getOperand in EV. apply nth_error_None in EV.
      rewrite !skipn_all2 in * by lia. rewrite !firstn_nil in *. exact HC.
Qed.

(** One visit, with the number of its replacements read off the
    instruction; [b] tells whether the vector holds a value. *)
Lemma instBody_counted (X : Instruction) (m : bool) (st : State) (b : bool) :
  (b = true <-> IntegerVect st <> []) ->
  exists m' st',
    instBody X (m, st) = Returns (m', st')
    /\ NextId st
         + 9 * (if b && isValidCandidateInstruction X then candidates X
                else 0)
       <= NextId st'
       <= NextId st
          + 12 * (if b && isValidCandidateInstruction X then candidates X
                  else 0)
    /\ (m' = true <->
        m = true
        \/ 0 < (if b && isValidCandidateInstruction X then candidates X
                else 0))
    /\ length (Before st') + NextId st = length (Before st) + 1 + NextId st'
    /\ (b || isIntegerInst X = true <-> IntegerVect st' <> []).
Proof.
  intros Hb.
  destruct (instBody_shape X m st)
    as (m1 & st1 & news & X1 & k & E & HB & _ & _ & HL & HN & HP & _
        & _ & _ & Hk0 & _).
  exists m1, st1. split; [exact E | ].
  assert (Hpool : b || isIntegerInst X = true <-> IntegerVect st1 <> []).
  { unfold isIntegerInst. split.
    - intros H HE. rewrite HE in HP. simpl in HP.
      destruct b; simpl in H.
      + destruct (IntegerVect st); [apply Hb; auto | simpl in HP; lia].
      + rewrite H in HP. lia.
    - intros H. destruct b; [reflexivity | ]. simpl.
      destruct (isIntegerTy (inst_ty X)); [reflexivity | ].
      destruct (IntegerVect st) eqn:EP.
      + rewrite (Hk0 eq_refl) in HP. simpl in HP.
        destruct (IntegerVect st1); [congruence | simpl in HP; lia].
      + assert (false = true) by (apply Hb; discriminate). discriminate. }
  assert (Hlen : length (Before st1) + NextId st
                 = length (Before st) + 1 + NextId st1).
  { rewrite HB, !length_app. simpl. lia. }
  assert (Hkept : IntegerVect st = [] \/ isValidCandidateInstruction X = false
                  \/ Settled X ->
                  NextId st + 9 * 0 <= NextId st1 <= NextId st + 12 * 0
                  /\ (m1 = true <-> m = true \/ 0 < 0)).
  { intros H. rewrite (@instBody_kept X m st H) in E. inversion E. subst.
    simpl. split; [lia | ].
    split; [auto | intros [H1 | H1]; [exact H1 | lia]]. }
  destruct b.
  - assert (Hne : IntegerVect st <> []) by (apply Hb; reflexivity).
    destruct (isValidCandidateInstruction X) eqn:EX; simpl andb; cbv iota.
    + unfold instBody in E. rewrite EX in E.
      destruct (@operandLoop_counted (getNumOperands X) 0 X m st Hne)
        as (X' & m' & st' & E' & HC' & Hm').
      rewrite E' in E. unfold registerInteger in E.
      simpl skipn in HC', Hm'. unfold getNumOperands in HC', Hm'.
      rewrite firstn_all in HC', Hm'. fold (candidates X) in HC', Hm'.
      destruct (isIntegerTy (getType (valueOf X'))); inversion E; subst;
        simpl; auto.
    + destruct Hkept as [H1 H2]; auto.
  - simpl andb. cbv iota. destruct (IntegerVect st) eqn:EP.
    + destruct Hkept as [H1 H2]; auto.
    + assert (false = true) by (apply Hb; discriminate). discriminate.
Qed.

(** A walk, with the number of its replacements read off the block. *)
Lemma walk_counted (l : list Instruction) (b m : bool) (st : State) :
  (b = true <-> IntegerVect st <> []) ->
  exists m' st',
    for_each instBody l (m, st) = Returns (m', st')
    /\ NextId st + 9 * replacements b l <= NextId st'
       <= NextId st + 12 * replacements b l
    /\ length (Before st') + NextId st
       = length (Before st) + length l + NextId st'
    /\ (m' = true <-> m = true \/ 0 < replacements b l)
    /\ (replacements b l = 0 ->
        Before st' = Before st ++ l
        /\ Generator st' = Generator st /\ NextId st' = NextId st).
Proof.
  intros Hb.
  assert (H : exists m' st',
             for_each instBody l (m, st) = Returns (m', st')
             /\ NextId st + 9 * replacements b l <= NextId st'
                <= NextId st + 12 * replacements b l
             /\ length (Before st') + NextId st
                = length (Before st) + length l + NextId st'
             /\ (m' = true <-> m = true \/ 0 < replacements b l)).
  { revert b m st Hb. induction l as [|X l IH]; intros b m st Hb.
    - exists m, st. split; [reflexivity | ]. simpl.
      split; [lia | ]. split; [lia | ].
      split; [auto | intros [H | H]; [exact H | lia]].
    - destruct (@instBody_counted X m st b Hb)
        as (m1 & st1 & E1 & HN1 & Hm1 & HL1 & Hb1).
      destruct (IH _ m1 st1 Hb1) as (m2 & st2 & E2 & HN2 & HL2 & Hm2).
      exists m2, st2. cbn [for_each]. rewrite E1. split; [exact E2 | ].
      cbn [replacements length]. split; [lia | ]. split; [lia | ].
      rewrite Hm2, Hm1. split; intros H; intuition lia. }
  destruct H as (m' & st' & E & HN & HL & Hm).
  exists m', st'. split; [exact E | ]. split; [exact HN | ].
  split; [exact HL | ]. split; [exact Hm | ].
  intros H0. apply replacements_SettledAfter in H0.
  destruct (@walk_settled l b st m H0) as (t & Et & HBt & HGt & HNt).
  { intros ->. destruct (IntegerVect st); [reflexivity | ].
    assert (false = true) by (apply Hb; discriminate). discriminate. }
  rewrite E in Et. inversion Et. subst. auto.
Qed.

(** ** The types of a walk *)

Lemma In_list_set {A} (l : list A) (i : nat) (x y : A) :
  In y (list_set l i x) -> y = x \/ In y l.
Proof.
  revert i. induction l as [|a l IH]; intros [|i]; simpl; auto.
  - intros [<- | H]; auto.
  - intros [<- | H]; auto. destruct (IH i H); auto.
Qed.

Lemma integerValues_integer (l : list Instruction) (v : Value) :
  In v (integerValues l) -> isIntegerTy (getType v) = true.
Proof.
  unfold integerValues. rewrite in_map_iff.
  intros (Ins & <- & H). apply filter_In in H. apply H.
Qed.

Lemma operandBody_WalkTyped (N0 : nat) (X : Instruction) (i : nat)
      (s1 : Instruction * bool * State) :
  (let '(X1, _, st1) := s1 in
   WalkTyped N0 st1 /\ IntegerZeros X1 /\ inst_id X1 = inst_id X) ->
  exists s2,
    operandBody i s1 = Returns s2
    /\ (let '(X2, _, st2) := s2 in
        WalkTyped N0 st2 /\ IntegerZeros X2 /\ inst_id X2 = inst_id X).
Proof.
  destruct s1 as [[X1 m1] st1]. intros H1. unfold operandBody.
  destruct (getOperand X1 i) as [V|] eqn:EV;
    [ | eexists; split; [reflexivity | exact H1] ].
  destruct (isValidCandidateOperand V) as [C|] eqn:EC;
    [ | eexists; split; [reflexivity | exact H1] ].
  destruct (IntegerVect st1) as [|v0 pool] eqn:EP.
  - rewrite (replaceZero_empty X1 C st1 EP).
    eexists; split; [reflexivity | exact H1].
  - assert (Hne : IntegerVect st1 <> []) by (rewrite EP; discriminate).
    destruct H1 as ((HT1 & HT2) & HZ & Hid).
    destruct (@replaceZero_typed X1 C st1 Hne HT1)
      as (v & st2 & news & E & HB & HW & _).
    destruct (@replaceZero_Grows X1 C st1 Hne)
      as (v' & st2' & news' & E' & (HB' & _ & HS & _) & _ & Hv & _).
    rewrite E in E'. inversion E'. subst v' st2'. clear E'.
    rewrite HB in HB'. apply app_inv_head in HB'. subst news'.
    rewrite E. eexists; split; [reflexivity | ].
    unfold getOperand in EV. pose proof (nth_error_In _ _ EV) as HV.
    destruct (HZ V C HV EC) as (n & HC & Hn).
    specialize (HW n HC Hn). rewrite forallb_forall in HW.
    split; [split | split].
    + intros x Hx. apply HS in Hx. destruct Hx as [Hx | Hx]; auto.
      eapply integerValues_integer. exact Hx.
    + intros Ins HIns HN. rewrite HB in HIns. apply in_app_or in HIns.
      destruct HIns as [HIns | HIns]; auto.
    + intros V' C' HV' EC'. unfold setOperand in HV'. simpl in HV'.
      apply In_list_set in HV'. destruct HV' as [-> | HV'].
      * rewrite (created_not_candidate _ _ Hv) in EC'. discriminate.
      * eapply HZ; eassumption.
    + exact Hid.
Qed.

Lemma instBody_WalkTyped (N0 : nat) (X : Instruction) (m : bool) (st : State) :
  inst_id X < N0 ->
  (isValidCandidateInstruction X = true -> IntegerZeros X) ->
  WalkTyped N0 st ->
  exists s, instBody X (m, st) = Returns s /\ WalkTyped N0 (snd s).
Proof.
  intros HX HZ HT. unfold instBody.
  assert (H : exists X' m' st',
             (if isValidCandidateInstruction X
              then for_each operandBody (seq 0 (getNumOperands X)) (X, m, st)
              else Returns (X, m, st)) = Returns (X', m', st')
             /\ WalkTyped N0 st' /\ inst_id X' = inst_id X).
  { destruct (isValidCandidateInstruction X).
    - destruct (@for_each_invariant _ _ operandBody
                  (fun s : Instruction * bool * State =>
                     let '(X1, _, st1) := s in
                     WalkTyped N0 st1 /\ IntegerZeros X1
                     /\ inst_id X1 = inst_id X)
                  (seq 0 (getNumOperands X)) (X, m, st))
        as ([[X' m'] st'] & E & HT' & _ & Hid).
      + split; [exact HT | ]. split; [apply HZ; reflexivity | reflexivity].
      + intros i s1 _ H1. apply operandBody_WalkTyped. exact H1.
      + exists X', m', st'. auto.
    - exists X, m, st. auto. }
  destruct H as (X' & m' & st' & E & (HT1 & HT2) & Hid).
  rewrite E. unfold registerInteger.
  destruct (isIntegerTy (getType (valueOf X'))) eqn:EI;
    eexists; (split; [reflexivity | ]); simpl; split.
  - intros v Hv. apply in_app_or in Hv. destruct Hv as [Hv | [<- | []]]; auto.
  - intros Ins HIns HN. apply in_app_or in HIns.
    destruct HIns as [HIns | [<- | []]]; auto. lia.
  - exact HT1.
  - intros Ins HIns HN. apply in_app_or in HIns.
    destruct HIns as [HIns | [<- | []]]; auto. lia.
Qed.

Lemma walk_WalkTyped (N0 : nat) (l : list Instruction) (m : bool)
      (st : State) :
  (forall X, In X l -> inst_id X < N0) ->
  (forall X, In X l -> isValidCandidateInstruction X = true ->
             IntegerZeros X) ->
  WalkTyped N0 st ->
  exists m' st',
    for_each instBody l (m, st) = Returns (m', st') /\ WalkTyped N0 st'.
Proof.
  intros Hid HZ H.
  destruct (@for_each_invariant _ _ instBody
              (fun s => WalkTyped N0 (snd s)) l (m, st) H)
    as ([m' st'] & E & H').
  - intros X [m1 st1] HX H1. apply instBody_WalkTyped; auto.
  - exists m', st'. auto.
Qed.

(** ** Further properties of the pass *)

Lemma WellFed_at (a : list Value) (l1 l2 : list Instruction)
      (Ins : Instruction) :
  WellFed a (l1 ++ Ins :: l2) -> Fed (a ++ map valueOf l1) Ins.
Proof.
  intros H. apply WellFed_app in H. destruct H as [_ [H _]]. exact H.
Qed.

Lemma InsertedFed_old (N0 : nat) (a : list Value) (l : list Instruction) :
  (forall Ins, In Ins l -> inst_id Ins < N0) -> InsertedFed N0 a l.
Proof.
  revert a. induction l as [|Ins l IH]; intros a H; simpl; [exact I | ].
  split.
  - intros HN. specialize (H Ins (or_introl eq_refl)). lia.
  - apply IH. intros J HJ. apply H. right. exact HJ.
Qed.

(** X1. Past the emptiness guard one call of [replaceZero] places
    between nine and twelve instructions before the visited one (twelve
    less one for each ingredient that is already an [i32], less one
    when the zero is an [i1]), which is what the counter of identities
    advances by, and appends eleven or twelve values to the vector:
    twelve whenever the replaced zero is an integer. *)
Theorem X1_replaceZero_cost (Inst : Instruction) (C : Constant) (st : State) :
  IntegerVect st <> [] ->
  exists v st' news,
    replaceZero Inst C st = Returns (Some v, st')
    /\ Before st' = Before st ++ news
    /\ 9 <= length news <= 12
    /\ NextId st' = NextId st + length news
    /\ length (IntegerVect st) + 11 <= length (IntegerVect st')
       <= length (IntegerVect st) + 12
    /\ (isIntegerTy (Constant_getType C) = true ->
        length (IntegerVect st') = length (IntegerVect st) + 12).
Proof.
  intros Hne.
  destruct (@replaceZero_shape Inst C st Hne)
    as (v & st' & news & E & HB & _ & HL & HN & HP & HC).
  exists v, st', news. auto 10.
Qed.

(** X1 on the example: the zero of [%3 = sub i32 %1, 0]. *)
Lemma X1_witness :
  exists v st' news,
    replaceZero example_sub (ConstantInt 32 0) example_state_1
    = Returns (Some v, st')
    /\ Before st' = Before example_state_1 ++ news
    /\ 9 <= length news <= 12
    /\ NextId st' = NextId example_state_1 + length news
    /\ length (IntegerVect example_state_1) + 11
       <= length (IntegerVect st')
       <= length (IntegerVect example_state_1) + 12
    /\ (isIntegerTy (Constant_getType (ConstantInt 32 0)) = true ->
        length (IntegerVect st')
        = length (IntegerVect example_state_1) + 12).
Proof.
  apply (@X1_replaceZero_cost example_sub (ConstantInt 32 0) example_state_1).
  discriminate.
Defined.

(** X2. Every instruction [replaceZero] creates is a [trunc], [zext],
    [and], [or], [mul] or [icmp eq], and each of its operands is a
    constant that [isValidCandidateOperand] rejects, a value of the
    vector as it was at the call, or the result of an instruction
    created earlier in the same call. *)
Theorem X2_replaceZero_operands_defined (Inst : Instruction) (C : Constant)
        (st : State) :
  IntegerVect st <> [] ->
  exists v st' news,
    replaceZero Inst C st = Returns (Some v, st')
    /\ Before st' = Before st ++ news
    /\ forall l1 Ins l2,
         news = l1 ++ Ins :: l2 ->
         isArithmetic Ins = true
         /\ forall V, In V (operands Ins) ->
              (exists K, V = VConstant K /\ isValidCandidateOperand V = None)
              \/ In V (IntegerVect st)
              \/ In V (map valueOf l1).
Proof.
  intros Hne.
  destruct (@replaceZero_shape Inst C st Hne)
    as (v & st' & news & E & HB & HW & _).
  exists v, st', news. split; [exact E | ]. split; [exact HB | ].
  intros l1 Ins l2 ->. apply WellFed_at in HW. destruct HW as [HA HV].
  split; [exact HA | ]. intros V HIn.
  destruct (HV V HIn) as [HK | HK]; [left; exact HK | right].
  apply in_app_or. exact HK.
Qed.

(** X2 on the example. *)
Lemma X2_witness :
  exists v st' news,
    replaceZero example_sub (ConstantInt 32 0) example_state_1
    = Returns (Some v, st')
    /\ Before st' = Before example_state_1 ++ news
    /\ forall l1 Ins l2,
         news = l1 ++ Ins :: l2 ->
         isArithmetic Ins = true
         /\ forall V, In V (operands Ins) ->
              (exists K, V = VConstant K /\ isValidCandidateOperand V = None)
              \/ In V (IntegerVect example_state_1)
              \/ In V (map valueOf l1).
Proof.
  apply (@X2_replaceZero_operands_defined
           example_sub (ConstantInt 32 0) example_state_1).
  discriminate.
Defined.

(** X3. When the vector holds integers only and the replaced zero is an
    integer, every instruction [replaceZero] creates is well typed.
    When the replaced zero is not an integer (a [zeroinitializer]), the
    instructions are well typed up to the last one, which is the value
    returned: a [zext] of the [i1] comparison to the type of the zero,
    which is not a valid cast. *)
Theorem X3_replaceZero_types (Inst : Instruction) (C : Constant) (st : State) :
  IntegerVect st <> [] ->
  (forall v, In v (IntegerVect st) -> isIntegerTy (getType v) = true) ->
  exists v st' news,
    replaceZero Inst C st = Returns (Some v, st')
    /\ Before st' = Before st ++ news
    /\ (forall n, Constant_getType C = IntegerTy n -> (1 <= n)%N ->
        forallb wellTyped news = true)
    /\ (isIntegerTy (Constant_getType C) = false ->
        exists front cast,
          news = front ++ [cast]
          /\ forallb wellTyped front = true
          /\ opcode cast = ZExt
          /\ inst_ty cast = Constant_getType C
          /\ v = valueOf cast
          /\ wellTyped cast = false).
Proof.
  intros Hne Hint. exact (@replaceZero_typed Inst C st Hne Hint).
Qed.

(** X3 on the example: the [zeroinitializer] of the second store. *)
Lemma X3_witness :
  exists v st' news,
    replaceZero example_vstore ConstantAggregateZero example_state_1
    = Returns (Some v, st')
    /\ Before st' = Before example_state_1 ++ news
    /\ (forall n, Constant_getType ConstantAggregateZero = IntegerTy n ->
        (1 <= n)%N -> forallb wellTyped news = true)
    /\ (isIntegerTy (Constant_getType ConstantAggregateZero) = false ->
        exists front cast,
          news = front ++ [cast]
          /\ forallb wellTyped front = true
          /\ opcode cast = ZExt
          /\ inst_ty cast = Constant_getType ConstantAggregateZero
          /\ v = valueOf cast
          /\ wellTyped cast = false).
Proof.
  apply (@X3_replaceZero_types
           example_vstore ConstantAggregateZero example_state_1).
  - discriminate.
  - intros v [<- | []]. reflexivity.
Defined.

(** X4. Run with a vector that is not empty, the loop over the
    operands of an instruction replaces each of its eligible zeros and
    nothing else: it creates between nine and twelve instructions per
    eligible zero, raises the flag exactly when there is one, and
    leaves an instruction none of whose operands
    [isValidCandidateOperand] accepts. *)
Theorem X4_operand_loop_settles (X : Instruction) (m : bool) (st : State) :
  IntegerVect st <> [] ->
  exists X' m' st',
    for_each operandBody (seq 0 (getNumOperands X)) (X, m, st)
    = Returns (X', m', st')
    /\ Settled X'
    /\ SameShape X X'
    /\ NextId st + 9 * candidates X <= NextId st'
       <= NextId st + 12 * candidates X
    /\ (m' = true <-> m = true \/ 0 < candidates X)
    /\ (candidates X = 0 -> X' = X /\ st' = st).
Proof.
  intros Hne.
  destruct (@operandLoop_Settled X m st Hne) as (X' & m' & st' & E & HS).
  destruct (operandLoop_InnerShape X m st (seq 0 (getNumOperands X)))
    as ([[X1 m1] st1] & E1 & news & k & _ & _ & _ & HL & HN & _ & _ & Hk
        & HSh).
  rewrite E in E1. inversion E1. subst X1 m1 st1. clear E1.
  destruct (@operandLoop_counted (getNumOperands X) 0 X m st Hne)
    as (X2 & m2 & st2 & E2 & HC2 & Hm2).
  rewrite E in E2. inversion E2. subst X2 m2 st2. clear E2.
  simpl skipn in HC2, Hm2. unfold getNumOperands in HC2, Hm2.
  rewrite firstn_all in HC2, Hm2. fold (candidates X) in HC2, Hm2.
  exists X', m', st'. split; [exact E | ]. split; [exact HS | ].
  split; [exact HSh | ]. split; [exact HC2 | ]. split; [exact Hm2 | ].
  intros H0. apply Hk. lia.
Qed.

(** X4 on the example: the operands of [%3 = sub i32 %1, 0]. *)
Lemma X4_witness :
  exists X' m' st',
    for_each operandBody (seq 0 (getNumOperands example_sub))
             (example_sub, false, example_state_1)
    = Returns (X', m', st')
    /\ Settled X'
    /\ SameShape example_sub X'
    /\ NextId example_state_1 + 9 * candidates example_sub <= NextId st'
       <= NextId example_state_1 + 12 * candidates example_sub
    /\ (m' = true <-> false = true \/ 0 < candidates example_sub)
    /\ (candidates example_sub = 0 ->
        X' = example_sub /\ st' = example_state_1).
Proof.
  apply (@X4_operand_loop_settles example_sub false example_state_1).
  discriminate.
Defined.

(** X5. One turn of the loop over the instructions leaves the visited
    instruction as it is, the flag as it is and the engine untouched
    when the vector is empty, when the instruction is a getelementptr,
    switch or call, or when none of its operands is an eligible zero;
    in every other case it raises the flag and creates between nine and
    twelve instructions per eligible zero among the operands. *)
Theorem X5_instBody_cases (X : Instruction) (m : bool) (st : State) :
  exists m' st',
    instBody X (m, st) = Returns (m', st')
    /\ (IntegerVect st = [] \/ isValidCandidateInstruction X = false
        \/ Settled X ->
        m' = m /\ st' = visitKept X st)
    /\ (IntegerVect st <> [] -> isValidCandidateInstruction X = true ->
        ~ Settled X ->
        m' = true /\ 0 < candidates X
        /\ NextId st + 9 * candidates X <= NextId st'
           <= NextId st + 12 * candidates X).
Proof.
  destruct (instBody_shape X m st)
    as (m' & st' & news & X' & k & E & _).
  exists m', st'. split; [exact E | ]. split.
  - intros H. rewrite (@instBody_kept X m st H) in E. inversion E. auto.
  - intros Hne HX HnS.
    assert (Hb : true = true <-> IntegerVect st <> []) by tauto.
    destruct (@instBody_counted X m st true Hb)
      as (m2 & st2 & E2 & HN2 & Hm2 & _).
    rewrite E in E2. inversion E2. subst m2 st2. clear E2.
    rewrite HX in HN2, Hm2. simpl andb in HN2, Hm2. cbv iota in HN2, Hm2.
    assert (Hpos : 0 < candidates X).
    { destruct (candidates X) eqn:EC; [ | lia].
      apply candidates_Settled in EC. contradiction. }
    split; [apply Hm2; right; exact Hpos | ]. split; [exact Hpos | exact HN2].
Qed.

(** X6. The cost of a walk is read off the block: with [k] the number
    of eligible zeros of the visited instructions that are neither
    getelementptr, switch nor call and follow a visited integer-typed
    instruction, the walk creates between [9 * k] and [12 * k]
    instructions, which is what the block grows by, and raises the flag
    exactly when [k] is not zero. *)
Theorem X6_runOnBasicBlock_cost (BB : BasicBlock) (st : State) :
  exists m st',
    runOnBasicBlock BB st = Returns (m, st')
    /\ NextId st + 9 * replacements false (snd (getFirstInsertionPt BB))
       <= NextId st'
       <= NextId st + 12 * replacements false (snd (getFirstInsertionPt BB))
    /\ length (Before st') = length BB + (NextId st' - NextId st)
    /\ (m = true <-> 0 < replacements false (snd (getFirstInsertionPt BB))).
Proof.
  unfold runOnBasicBlock.
  assert (Hb : false = true <-> IntegerVect (enter BB st) <> []).
  { simpl. split; [discriminate | congruence]. }
  destruct (@walk_counted (snd (getFirstInsertionPt BB)) false false
              (enter BB st) Hb)
    as (m & st' & E & HN & HB & Hm & _).
  exists m, st'. split; [exact E | ].
  split; [exact HN | ]. split.
  - pose proof (f_equal (@length _) (getFirstInsertionPt_split BB)) as HLn.
    rewrite length_app in HLn. simpl in HB, HN. lia.
  - rewrite Hm. split; [intros [H | H]; [discriminate | exact H] | auto].
Qed.

(** X7. The flag [runOnBasicBlock] returns is false exactly when the
    block it leaves is the block it was given; the engine and the
    counter of identities are then as they were. *)
Theorem X7_flag_false_iff_unchanged (BB : BasicBlock) (st : State) :
  exists m st',
    runOnBasicBlock BB st = Returns (m, st')
    /\ (m = false <-> Before st' = BB)
    /\ (m = false -> Generator st' = Generator st /\ NextId st' = NextId st).
Proof.
  unfold runOnBasicBlock.
  assert (Hb : false = true <-> IntegerVect (enter BB st) <> []).
  { simpl. split; [discriminate | congruence]. }
  destruct (@walk_counted (snd (getFirstInsertionPt BB)) false false
              (enter BB st) Hb)
    as (m & st' & E & HN & HB & Hm & H0).
  exists m, st'. split; [exact E | ].
  simpl in HN, HB, H0.
  assert (Hk : m = false <->
               replacements false (snd (getFirstInsertionPt BB)) = 0).
  { destruct m.
    - split; [discriminate | ]. intros H. rewrite H in Hm.
      destruct Hm as [Hm _]. destruct (Hm eq_refl); [discriminate | lia].
    - split; [ | reflexivity]. intros _.
      destruct (replacements false (snd (getFirstInsertionPt BB)));
        [reflexivity | ].
      assert (false = true) by (apply Hm; right; lia). discriminate. }
  split.
  - rewrite Hk. split.
    + intros H. destruct (H0 H) as (-> & _).
      symmetry. apply getFirstInsertionPt_split.
    + intros H. rewrite H in HB.
      pose proof (f_equal (@length _) (getFirstInsertionPt_split BB)) as HLn.
      rewrite length_app in HLn.
      destruct (replacements false (snd (getFirstInsertionPt BB)));
        [reflexivity | lia].
  - intros H. apply Hk in H. destruct (H0 H) as (_ & HG & HN0). auto.
Qed.

(** X8. The walk leaves nothing to replace: in the block
    [runOnBasicBlock] leaves, past the insertion point, an instruction
    that follows an integer-typed one and is neither a getelementptr,
    a switch nor a call has no operand that [isValidCandidateOperand]
    accepts. *)
Theorem X8_runOnBasicBlock_complete (BB : BasicBlock) (st : State) :
  exists m st' placed,
    runOnBasicBlock BB st = Returns (m, st')
    /\ Before st' = fst (getFirstInsertionPt BB) ++ placed
    /\ replacements false placed = 0
    /\ forall l1 X l2 V,
         placed = l1 ++ X :: l2 ->
         existsb isIntegerInst l1 = true ->
         isValidCandidateInstruction X = true ->
         In V (operands X) ->
         isValidCandidateOperand V = None.
Proof.
  destruct (runOnBasicBlock_settled BB st)
    as (m & st' & placed & E & HB & HS & _).
  exists m, st', placed. split; [exact E | ]. split; [exact HB | ].
  split; [apply replacements_SettledAfter; exact HS | ].
  intros l1 X l2 V -> H1 HX HV.
  exact (@SettledAfter_at l1 l2 X HS H1 HX V HV).
Qed.

(** X9. Run again on the block it has left, from any state of the
    engine, [runOnBasicBlock] returns false, leaves the block as it is
    and takes no draw. *)
Theorem X9_runOnBasicBlock_idempotent (BB : BasicBlock) (st st2 : State) :
  exists m st',
    runOnBasicBlock BB st = Returns (m, st')
    /\ exists st'',
         runOnBasicBlock (Before st') st2 = Returns (false, st'')
         /\ Before st'' = Before st'
         /\ Generator st'' = Generator st2
         /\ NextId st'' = NextId st2.
Proof.
  destruct (runOnBasicBlock_settled BB st)
    as (m & st' & placed & E & HB & HS & Hhd).
  exists m, st'. split; [exact E | ].
  pose proof (@getFirstInsertionPt_again BB placed Hhd) as HG.
  rewrite <- HB in HG.
  unfold runOnBasicBlock at 1. rewrite HG. cbn [snd].
  destruct (@walk_settled placed false (enter (Before st') st2) false HS)
    as (t & Et & HBt & HGt & HNt); [reflexivity | ].
  exists t. split; [exact Et | ]. split; [ | split; assumption].
  rewrite HBt. unfold enter. cbn [Before]. rewrite HG. cbn [fst].
  symmetry. exact HB.
Qed.

(** X10. Nothing is replaced up to and including the first
    integer-typed instruction the walk visits: when no instruction of
    [pre] is integer-typed, the walk of [pre ++ X :: post] is the walk
    of [post] from the state in which [pre] and [X] stand in the block
    unchanged and the vector holds [X] alone, if it is integer-typed. *)
Theorem X10_until_first_integer (BB : BasicBlock) (st : State)
        (pre post : list Instruction) (X : Instruction) :
  snd (getFirstInsertionPt BB) = pre ++ X :: post ->
  existsb isIntegerInst pre = false ->
  runOnBasicBlock BB st
  = for_each instBody post
      (false,
       {| IntegerVect := if isIntegerTy (inst_ty X) then [valueOf X] else [];
          Generator := Generator st;
          NextId := NextId st;
          Before := fst (getFirstInsertionPt BB) ++ pre ++ [X] |}).
Proof.
  intros HV Hpre. unfold runOnBasicBlock. rewrite HV.
  assert (Happ : forall l1 l2 s,
             for_each instBody (l1 ++ l2) s
             = match for_each instBody l1 s with
               | Returns s' => for_each instBody l2 s'
               | Throws_out_of_range => Throws_out_of_range
               end).
  { induction l1 as [|a l1 IH]; intros l2 s; simpl; [reflexivity | ].
    destruct (instBody a s); [apply IH | reflexivity]. }
  rewrite Happ.
  rewrite (@walk_no_integer pre false (enter BB st) eq_refl Hpre).
  cbn [for_each]. rewrite instBody_kept by (left; reflexivity).
  unfold visitKept, enter. simpl.
  rewrite <- app_assoc. reflexivity.
Qed.

(** X10 on a block whose first visited instructions are not
    integer-typed: the [i32] zero of the store is kept. *)
Lemma X10_witness :
  runOnBasicBlock
    [example_phi; example_gep; example_store; example_add; example_sub;
     example_ret]
    example_state
  = for_each instBody [example_sub; example_ret]
      (false,
       {| IntegerVect :=
            if isIntegerTy (inst_ty example_add) then [valueOf example_add]
            else [];
          Generator := Generator example_state;
          NextId := NextId example_state;
          Before :=
            fst (getFirstInsertionPt
                   [example_phi; example_gep; example_store; example_add;
                    example_sub; example_ret])
            ++ [example_gep; example_store] ++ [example_add] |}).
Proof.
  apply (@X10_until_first_integer
           [example_phi; example_gep; example_store; example_add;
            example_sub; example_ret]
           example_state [example_gep; example_store]
           [example_sub; example_ret] example_add).
  - reflexivity.
  - reflexivity.
Defined.

(** X11. Take a block whose instructions are older than the values the
    pass creates.  In the block [runOnBasicBlock] leaves, every created
    instruction is a [trunc], [zext], [and], [or], [mul] or [icmp eq]
    and each of its operands is a constant that
    [isValidCandidateOperand] rejects or the result of an instruction
    that stands before it in the block. *)
Theorem X11_created_operands_defined (BB : BasicBlock) (st : State) :
  (forall Ins, In Ins BB -> inst_id Ins < NextId st) ->
  exists m st',
    runOnBasicBlock BB st = Returns (m, st')
    /\ forall l1 Ins l2 V,
         Before st' = l1 ++ Ins :: l2 ->
         NextId st <= inst_id Ins ->
         isArithmetic Ins = true
         /\ (In V (operands Ins) ->
             (exists K, V = VConstant K /\ isValidCandidateOperand V = None)
             \/ In V (map valueOf l1)).
Proof.
  intros Hold. unfold runOnBasicBlock.
  assert (HBB : forall Ins,
             In Ins (fst (getFirstInsertionPt BB)
                     ++ snd (getFirstInsertionPt BB)) ->
             inst_id Ins < NextId st).
  { rewrite <- getFirstInsertionPt_split. exact Hold. }
  assert (H0 : WalkFed (NextId st) (enter BB st)).
  { split; [intros v [] | ]. simpl. apply InsertedFed_old.
    intros Ins H. apply HBB. apply in_or_app. left. exact H. }
  destruct (@walk_WalkFed (NextId st) (snd (getFirstInsertionPt BB)) false
              (enter BB st))
    as (m & st' & E & _ & HF); [ | exact H0 | ].
  { intros X H. apply HBB. apply in_or_app. right. exact H. }
  exists m, st'. split; [exact E | ].
  intros l1 Ins l2 V HB HN. rewrite HB in HF.
  destruct (@InsertedFed_at (NextId st) l1 l2 Ins HF HN) as [HA HV].
  split; [exact HA | ]. intros HIn. exact (HV V HIn).
Qed.

(** X11 on the example block. *)
Lemma X11_witness :
  exists m st',
    runOnBasicBlock example_block example_state = Returns (m, st')
    /\ forall l1 Ins l2 V,
         Before st' = l1 ++ Ins :: l2 ->
         NextId example_state <= inst_id Ins ->
         isArithmetic Ins = true
         /\ (In V (operands Ins) ->
             (exists K, V = VConstant K /\ isValidCandidateOperand V = None)
             \/ In V (map valueOf l1)).
Proof.
  apply (@X11_created_operands_defined example_block example_state).
  intros Ins H. simpl in H.
  repeat (destruct H as [<- | H]; [simpl; lia | ]).
  contradiction.
Defined.

(** X12. Take a block whose instructions are older than the values the
    pass creates and in which every eligible zero of an instruction
    that is neither a getelementptr, a switch nor a call is an integer.
    Every instruction [runOnBasicBlock] creates is then well typed, and
    the vector holds integers only. *)
Theorem X12_created_well_typed (BB : BasicBlock) (st : State) :
  (forall Ins, In Ins BB -> inst_id Ins < NextId st) ->
  (forall X, In X (snd (getFirstInsertionPt BB)) ->
             isValidCandidateInstruction X = true -> IntegerZeros X) ->
  exists m st',
    runOnBasicBlock BB st = Returns (m, st')
    /\ (forall Ins, In Ins (Before st') -> NextId st <= inst_id Ins ->
                    wellTyped Ins = true)
    /\ (forall v, In v (IntegerVect st') -> isIntegerTy (getType v) = true).
Proof.
  intros Hold HZ. unfold runOnBasicBlock.
  assert (HBB : forall Ins,
             In Ins (fst (getFirstInsertionPt BB)
                     ++ snd (getFirstInsertionPt BB)) ->
             inst_id Ins < NextId st).
  { rewrite <- getFirstInsertionPt_split. exact Hold. }
  assert (H0 : WalkTyped (NextId st) (enter BB st)).
  { split; [intros v [] | ]. simpl. intros Ins H HN.
    assert (inst_id Ins < NextId st)
      by (apply HBB; apply in_or_app; left; exact H).
    lia. }
  destruct (@walk_WalkTyped (NextId st) (snd (getFirstInsertionPt BB)) false
              (enter BB st))
    as (m & st' & E & HT1 & HT2); [ | exact HZ | exact H0 | ].
  { intros X H. apply HBB. apply in_or_app. right. exact H. }
  exists m, st'. auto.
Qed.

(** X12 on the example block without its vector store. *)
Lemma X12_witness :
  exists m st',
    runOnBasicBlock
      [example_phi; example_add; example_gep; example_sub; example_store;
       example_ret]
      example_state
    = Returns (m, st')
    /\ (forall Ins, In Ins (Before st') ->
                    NextId example_state <= inst_id Ins ->
                    wellTyped Ins = true)
    /\ (forall v, In v (IntegerVect st') -> isIntegerTy (getType v) = true).
Proof.
  apply (@X12_created_well_typed
           [example_phi; example_add; example_gep; example_sub; example_store;
            example_ret]
           example_state).
  - intros Ins H. simpl in H.
    repeat (destruct H as [<- | H]; [simpl; lia | ]).
    contradiction.
  - intros X HX _ V C HV HC. vm_compute in HX.
    repeat (destruct HX as [<- | HX];
            [ simpl in HV;
              repeat (destruct HV as [<- | HV];
                      [ vm_compute in HC;
                        first [ discriminate HC
                              | inversion HC; exists 32%N;
                                split; [reflexivity | lia] ]
                      | ]);
              contradiction
            | ]).
    contradiction.
Defined.

(** X13. Nothing is placed after the last instruction of the block:
    the block [runOnBasicBlock] leaves ends with the instruction the
    given block ends with (its terminator), of the same identity, kind,
    result type and operand count. *)
Theorem X13_terminator_stays_last (BB : BasicBlock) (st : State)
        (pre : list Instruction) (T : Instruction) :
  snd (getFirstInsertionPt BB) = pre ++ [T] ->
  exists m st' front T',
    runOnBasicBlock BB st = Returns (m, st')
    /\ Before st' = front ++ [T']
    /\ SameShape T T'.
Proof.
  intros HV.
  destruct (runOnBasicBlock_WalkRel BB st)
    as (m & st' & outs & E & (_ & HK & _) & HB).
  rewrite HV in HK. apply Forall2_app_inv_l in HK.
  destruct HK as (o1 & o2 & _ & H2 & ->).
  inversion H2 as [|T0 o l0 ol Ho Hnil]. subst. inversion Hnil. subst.
  exists m, st', (fst (getFirstInsertionPt BB) ++ assemble o1 ++ fst o),
    (snd o).
  split; [exact E | ]. split; [ | apply Ho].
  rewrite HB. unfold assemble. rewrite flat_map_app. simpl.
  rewrite app_nil_r, <- !app_assoc. reflexivity.
Qed.

(** X13 on the example block: it still ends with its [ret]. *)
Lemma X13_witness :
  exists m st' front T',
    runOnBasicBlock example_block example_state = Returns (m, st')
    /\ Before st' = front ++ [T']
    /\ SameShape example_ret T'.
Proof.
  apply (@X13_terminator_stays_last
           example_block example_state
           [example_add; example_gep; example_sub; example_store;
            example_vstore]
           example_ret).
  reflexivity.
Defined.

(** ** Values registered twice *)

Lemma CreateZExtOrTrunc_same (V : Value) (st : State) :
  getType V = IntegerTy 32 ->
  CreateZExtOrTrunc V (IntegerTy 32) st = Returns (V, st).
Proof.
  intros H. unfold CreateZExtOrTrunc. rewrite H. reflexivity.
Qed.

Lemma not_NoDup_again {A} (l l1 l2 : list A) (a : A) :
  In a l -> ~ NoDup (l ++ l1 ++ a :: l2).
Proof.
  intros Ha HN. rewrite app_assoc in HN. apply NoDup_remove_2 in HN.
  apply HN. rewrite <- app_assoc. apply in_or_app. left. exact Ha.
Qed.

Ltac step_same H32 :=
  match goal with
  | Hin : In ?V _ |- context [CreateZExtOrTrunc ?V (IntegerTy 32) ?s] =>
      rewrite (@CreateZExtOrTrunc_same V s (H32 V Hin));
      cbv beta iota; rewrite ?(H32 V Hin); simpl
  end.

(** X14. [registerInteger] is called on whatever the builder returns,
    and a cast that is not needed returns its argument.  So when the
    vector holds [i32] values only, the two ingredients [replaceZero]
    picks, which are in the vector, are appended to it again (as the
    first and the sixth of the values appended): the vector then holds
    a value more than once. *)
Theorem X14_ingredients_registered_again (Inst : Instruction) (C : Constant)
        (st : State) :
  IntegerVect st <> [] ->
  (forall x, In x (IntegerVect st) -> getType x = IntegerTy 32) ->
  exists v st' added x y,
    replaceZero Inst C st = Returns (Some v, st')
    /\ IntegerVect st' = IntegerVect st ++ added
    /\ In x (IntegerVect st) /\ In y (IntegerVect st)
    /\ nth_error added 0 = Some x /\ nth_error added 5 = Some y
    /\ ~ NoDup (IntegerVect st').
Proof.
  intros Hne H32. destruct st as [IV G N B]. simpl in Hne, H32.
  destruct IV as [|v0 pool]; [congruence | clear Hne].
  unfold replaceZero. unfold bind at 1. unfold IntegerVect_size.
  cbn [IntegerVect].
  change (length (v0 :: pool) <? 1) with false. cbv iota zeta.
  do 4 step_draw.
  generalize (Z.of_nat (1 + n1)), (Z.of_nat (1 + n2)).
  intros any1 any2.
  generalize dependent (Constant_getType C). intros T.
  unfold bind, registerInteger, CreateAnd, CreateOr, CreateMul, CreateICmpEQ,
    Insert, valueOf, ret.
  step_at (v0 :: pool). step_same H32. step_at (v0 :: pool). step_same H32.
  step_zext.
  all: eexists _, _, _, x, x0; split; [reflexivity | ];
    cbn [Before IntegerVect NextId Generator].
  all: rewrite <- ?app_assoc; cbn [app].
  all: split; [reflexivity | ].
  all: split; [exact Hin | ]; split; [exact Hin0 | ].
  all: split; [reflexivity | ]; split; [reflexivity | ].
  all: apply (@not_NoDup_again _ (v0 :: pool) [] _ x); exact Hin.
Qed.

(** X14 on the example: [%1], the one value of the vector, is both
    ingredients. *)
Lemma X14_witness :
  exists v st' added x y,
    replaceZero example_sub (ConstantInt 32 0) example_state_1
    = Returns (Some v, st')
    /\ IntegerVect st' = IntegerVect example_state_1 ++ added
    /\ In x (IntegerVect example_state_1)
    /\ In y (IntegerVect example_state_1)
    /\ nth_error added 0 = Some x /\ nth_error added 5 = Some y
    /\ ~ NoDup (IntegerVect st').
Proof.
  apply (@X14_ingredients_registered_again
           example_sub (ConstantInt 32 0) example_state_1).
  - discriminate.
  - intros x [<- | []]. reflexivity.
Defined.

Lemma app_cons_shift {A} (a : A) (l f r : list A) :
  l = f ++ r -> a :: l = (a :: f) ++ r.
Proof. intros ->. reflexivity. Qed.

Ltac split_tail :=
  repeat first [ symmetry; apply app_nil_l | apply app_cons_shift ].

(** X15. When the replaced zero is an [i1], no cast follows the
    comparison: [replaceZero] returns the comparison itself, the last
    instruction it created, and appends it to the vector twice. *)
Theorem X15_i1_zero_registered_twice (Inst : Instruction) (C : Constant)
        (st : State) :
  IntegerVect st <> [] ->
  Constant_getType C = IntegerTy 1 ->
  exists v st' news front comp,
    replaceZero Inst C st = Returns (Some v, st')
    /\ Before st' = Before st ++ news ++ [comp]
    /\ opcode comp = ICmpEQ
    /\ v = valueOf comp
    /\ IntegerVect st' = IntegerVect st ++ front ++ [v; v]
    /\ ~ NoDup (IntegerVect st').
Proof.
  intros Hne HT. destruct st as [IV G N B]. simpl in Hne.
  destruct IV as [|v0 pool]; [congruence | clear Hne].
  unfold replaceZero. unfold bind at 1. unfold IntegerVect_size.
  cbn [IntegerVect].
  change (length (v0 :: pool) <? 1) with false. cbv iota zeta.
  do 4 step_draw.
  generalize (Z.of_nat (1 + n1)), (Z.of_nat (1 + n2)).
  intros any1 any2. rewrite HT.
  unfold bind, registerInteger, CreateAnd, CreateOr, CreateMul, CreateICmpEQ,
    CreateZExt, Insert, valueOf, ret.
  step_at (v0 :: pool). step_cast; step_at (v0 :: pool); step_cast.
  all: simpl.
  all: rewrite <- ?app_assoc; cbn [app].
  all: eexists _, _, _, _, _; split; [reflexivity | ];
    cbn [Before IntegerVect NextId Generator].
  all: split;
    [ f_equal; apply (@app_removelast_last _ _ Inst); discriminate | ].
  all: cbn [removelast last].
  all: split; [reflexivity | ].
  all: split; [reflexivity | ].
  all: split; [do 2 f_equal; split_tail | ].
  all: match goal with
       | |- ~ NoDup (?a :: ?l ++ ?r) =>
           let H := fresh in
           intros H; change (a :: l ++ r) with ((a :: l) ++ r) in H;
           apply NoDup_app_remove_l in H;
           repeat match type of H with
                  | NoDup (_ :: _ :: _ :: _) =>
                      apply NoDup_cons_iff in H; destruct H as [_ H]
                  end;
           apply NoDup_cons_iff in H; destruct H as [H _];
           apply H; left; reflexivity
       end.
Qed.

(** X15 on the example: an [i1] zero, with [%1] in the vector. *)
Lemma X15_witness :
  exists v st' news front comp,
    replaceZero example_sub (ConstantInt 1 0) example_state_1
    = Returns (Some v, st')
    /\ Before st' = Before example_state_1 ++ news ++ [comp]
    /\ opcode comp = ICmpEQ
    /\ v = valueOf comp
    /\ IntegerVect st' = IntegerVect example_state_1 ++ front ++ [v; v]
    /\ ~ NoDup (IntegerVect st').
Proof.
  apply (@X15_i1_zero_registered_twice
           example_sub (ConstantInt 1 0) example_state_1).
  - discriminate.
  - reflexivity.
Defined.
